(** * nice-react-flex: prop normalisation and per-breakpoint style resolution

    A shallow embedding of
    - [src/services/shouldRenderIcon/normalizeProps.ts] ([normalizeProps]) and
    - [src/services/styleFlex/styleFlex.ts] ([getGapSize], [styleSpacing],
      [styleFlex]),
    over a small model of JavaScript values: primitives, and objects that
    live in a store and are passed around by reference.  [normalizeProps]
    allocates and assigns, so it runs in a state-and-exception monad over
    the store; the style functions only read it. *)

From Stdlib Require Import ZArith Ascii String DecimalString DecimalZ DecimalPos Lia.
From stdpp Require Import gmap strings list fin_maps.

Local Open Scope Z_scope.

(** ** Values, objects, store *)

Abbreviation loc := nat.

(** [VNumber] carries the integer-valued numbers (gap sizes, grow factors);
    fractional numbers, NaN and the infinities are outside the model. *)
Inductive value : Type :=
  | VUndefined
  | VNull
  | VBool (b : bool)
  | VNumber (n : Z)
  | VString (s : string)
  | VObject (l : loc).

#[global] Instance value_eq_dec : EqDecision value.
Proof. solve_decision. Defined.

(** A plain object: its own properties.  None of the property names this
    program reads or tests exists on [Object.prototype]. *)
Abbreviation object := (gmap string value).
Abbreviation heap := (list object).

(** [o.k]: the value of an own property, [undefined] when there is none. *)
Definition field (o : object) (k : string) : value :=
  default VUndefined (o !! k).

(** ** Exceptions and the two monads *)

Inductive exn : Type :=
  | TypeError        (* thrown by the language: [x.k] on null/undefined, [k in x] on a primitive *)
  | Dangling.        (* a reference outside the store; no program state has one *)

Inductive result (A : Type) : Type :=
  | Ok (a : A)
  | Throw (e : exn).
Arguments Ok {A} a.
Arguments Throw {A} e.

#[global] Instance result_ret : MRet result := fun A a => Ok a.
#[global] Instance result_bind : MBind result := fun A B f m =>
  match m with
  | Ok a => f a
  | Throw e => Throw e
  end.

(** Code that allocates or assigns: the store is threaded through. *)
Definition M (A : Type) : Type := heap → result (A * heap).

#[global] Instance M_ret : MRet M := fun A a h => Ok (a, h).
#[global] Instance M_bind : MBind M := fun A B f m h =>
  match m h with
  | Ok (a, h') => f a h'
  | Throw e => Throw e
  end.

(** A read-only computation run inside [M]. *)
Definition read {A} (r : heap → result A) : M A := fun h =>
  match r h with
  | Ok a => Ok (a, h)
  | Throw e => Throw e
  end.

Definition deref (l : loc) (h : heap) : result object :=
  match h !! l with
  | Some o => Ok o
  | None => Throw Dangling
  end.

(** An object literal [{ ... }]: a fresh object at the end of the store. *)
Definition alloc (o : object) : M loc := fun h => Ok (length h, h ++ [o]).

(** [l[k] = v]. *)
Definition set_prop (l : loc) (k : string) (v : value) : M unit := fun h =>
  match h !! l with
  | Some o => Ok (tt, <[l := <[k := v]> o]> h)
  | None => Throw Dangling
  end.

(** [xs.forEach(f)]. *)
Fixpoint for_each {A} (xs : list A) (f : A → M unit) : M unit :=
  match xs with
  | [] => mret tt
  | x :: xs' => f x ;; for_each xs' f
  end.

(** ** The JavaScript operators the two files use *)

Definition typeof (v : value) : string :=
  match v with
  | VUndefined => "undefined"
  | VNull => "object"
  | VBool _ => "boolean"
  | VNumber _ => "number"
  | VString _ => "string"
  | VObject _ => "object"
  end.

(** [a === b] on the values of the model (no NaN; objects by reference). *)
Definition strict_eq (a b : value) : bool := bool_decide (a = b).

(** ToBoolean: what [if (x)], [!x] and [x || y] test. *)
Definition truthy (v : value) : bool :=
  match v with
  | VUndefined | VNull => false
  | VBool b => b
  | VNumber n => negb (n =? 0)
  | VString s => negb (String.eqb s "")
  | VObject _ => true
  end.

(** [a || b]. *)
Definition js_or (a b : value) : value := if truthy a then a else b.

Definition nullish (v : value) : bool :=
  match v with
  | VUndefined | VNull => true
  | _ => false
  end.

(** Decimal text of an integer-valued number, as [String(n)] gives it for
    every integer below 10^21 in absolute value. *)
Definition number_to_string (n : Z) : string :=
  NilZero.string_of_int (Z.to_int n).

(** ToString, as applied to [${x}] in a template literal. *)
Definition to_string (v : value) : string :=
  match v with
  | VUndefined => "undefined"
  | VNull => "null"
  | VBool true => "true"
  | VBool false => "false"
  | VNumber n => number_to_string n
  | VString s => s
  | VObject _ => "[object Object]"
  end.

(** [v[k]] for the property names read here: an own property of an object,
    a TypeError on null and undefined, [undefined] on the other primitives
    (their prototypes have none of these names). *)
Definition get_prop (v : value) (k : string) (h : heap) : result value :=
  match v with
  | VObject l => o ← deref l h; mret (field o k)
  | VUndefined | VNull => Throw TypeError
  | VBool _ | VNumber _ | VString _ => mret VUndefined
  end.

(** [k in v]: a TypeError unless [v] is an object. *)
Definition has_prop (k : string) (v : value) (h : heap) : result bool :=
  match v with
  | VObject l => o ← deref l h; mret (bool_decide (is_Some (o !! k)))
  | _ => Throw TypeError
  end.

(** [xs.join(sep)] on an array of strings. *)
Fixpoint join (sep : string) (xs : list string) : string :=
  match xs with
  | [] => ""
  | [x] => x
  | x :: xs' => x +:+ sep +:+ join sep xs'
  end.

(** The line feed of ["\n"]. *)
Definition LF : string := String (ascii_of_nat 10) "".

(** ** styleFlex.ts *)

Inductive Breakpoint : Type := sm | md | lg.

#[global] Instance Breakpoint_eq_dec : EqDecision Breakpoint.
Proof. solve_decision. Defined.

Definition bp_key (b : Breakpoint) : string :=
  match b with
  | sm => "sm"
  | md => "md"
  | lg => "lg"
  end.

(** [getGapSize], lines 21-22. *)
Definition getGapSize (size : value) : value :=
  if negb (strict_eq size VUndefined)
  then (if strict_eq size (VNumber 0) then VString "0"
        else VString ("var(--gap-size-" +:+ to_string size +:+ ")"))
  else VUndefined.

(** [def.k ?? alt]: [alt] is evaluated only when [def.k] is null or
    undefined. *)
Definition get_or (def : value) (k : string) (alt : heap → result value)
    (h : heap) : result value :=
  x ← get_prop def k h;
  if nullish x then alt h else mret x.

(** One [if (styles.side !== undefined) parts.push(...)], lines 67-78. *)
Definition push_side (prefix : value) (side : string) (v : value)
    (parts : list string) : list string :=
  if negb (strict_eq v VUndefined)
  then parts ++ [to_string prefix +:+ "-" +:+ side +:+ ": "
                 +:+ to_string (getGapSize v) +:+ ";"]
  else parts.

(** [styleSpacing], lines 52-81. *)
Definition styleSpacing (type : value) (def : value) (h : heap) : result string :=
  if negb (truthy def) then mret ""
  else
    let prefix := type in
    top ← get_or def "top" (get_or def "vertical" (get_prop def "all")) h;
    right ← get_or def "right" (get_or def "horizontal" (get_prop def "all")) h;
    bottom ← get_or def "bottom" (get_or def "vertical" (get_prop def "all")) h;
    left ← get_or def "left" (get_or def "horizontal" (get_prop def "all")) h;
    let parts := [] in
    let parts := push_side prefix "top" top parts in
    let parts := push_side prefix "right" right parts in
    let parts := push_side prefix "bottom" bottom parts in
    let parts := push_side prefix "left" left parts in
    mret (join LF parts).

(** The extraction written out five times at lines 141-174:
    [typeof v === "object" ? v[breakpoint]
       : breakpoint === "sm" && typeof v === scalar ? v : undefined]. *)
Definition at_breakpoint (breakpoint : Breakpoint) (v : value) (scalar : string)
    (h : heap) : result value :=
  if String.eqb (typeof v) "object" then get_prop v (bp_key breakpoint) h
  else if bool_decide (breakpoint = sm) && String.eqb (typeof v) scalar then mret v
  else mret VUndefined.

(** ["sm" in v || "md" in v || "lg" in v], at styleFlex.ts line 179 and
    normalizeProps.ts line 90. *)
Definition has_breakpoint_key (v : value) (h : heap) : result bool :=
  s ← has_prop "sm" v h;
  if s : bool then mret true
  else
    m ← has_prop "md" v h;
    if m : bool then mret true else has_prop "lg" v h.

(** The extraction of lines 177-181:
    [typeof v === "object" && ("sm" in v || "md" in v || "lg" in v)
       ? v[breakpoint] : undefined]. *)
Definition spacing_at_breakpoint (breakpoint : Breakpoint) (v : value) (h : heap)
    : result value :=
  if String.eqb (typeof v) "object"
  then
    b ← has_breakpoint_key v h;
    if b : bool then get_prop v (bp_key breakpoint) h else mret VUndefined
  else mret VUndefined.

(** The pushes of lines 183-212, on the values extracted for the tier. *)
Definition base_styles (breakpoint : Breakpoint)
    (direction alignItems justifyContent grow gap : value) : list string :=
  let styles := [] in
  let styles :=
    if bool_decide (breakpoint = sm) then styles ++ ["display: flex;"] else styles in
  let styles :=
    if truthy direction
    then styles ++ ["flex-direction: " +:+ to_string direction +:+ ";"]
    else styles in
  let styles :=
    if truthy alignItems
    then styles ++ ["align-items: " +:+ to_string alignItems +:+ ";"]
    else styles in
  let styles :=
    if truthy justifyContent
    then styles ++ ["justify-content: " +:+ to_string justifyContent +:+ ";"]
    else styles in
  let styles :=
    if negb (strict_eq grow VUndefined)
    then (styles ++ ["flex-grow: " +:+ to_string grow +:+ ";"]) ++ ["flex-basis: 0;"]
    else styles in
  let styles :=
    if negb (strict_eq gap VUndefined)
    then styles ++ ["gap: var(--gap-size-" +:+ to_string gap +:+ ");"]
    else styles in
  styles.

(** The array [styles] when [styleFlex] reaches its [return], lines 135-220. *)
Definition styleFlex_styles (breakpoint : Breakpoint) (props : loc) (h : heap)
    : result (list string) :=
  p ← deref props h;
  direction ← at_breakpoint breakpoint (field p "direction") "string" h;
  gap ← at_breakpoint breakpoint (field p "gap") "number" h;
  grow ← at_breakpoint breakpoint (field p "grow") "number" h;
  alignItems ← at_breakpoint breakpoint (field p "alignItems") "string" h;
  justifyContent ← at_breakpoint breakpoint (field p "justifyContent") "string" h;
  spacing ← spacing_at_breakpoint breakpoint (field p "spacing") h;
  let styles := base_styles breakpoint direction alignItems justifyContent grow gap in
  if truthy spacing
  then
    spacingStyles ← styleSpacing (js_or (field p "type") (VString "padding")) spacing h;
    mret (if truthy (VString spacingStyles) then styles ++ [spacingStyles] else styles)
  else mret styles.

(** [styleFlex], lines 134-223. *)
Definition styleFlex (breakpoint : Breakpoint) (props : loc) (h : heap)
    : result string :=
  styles ← styleFlex_styles breakpoint props h;
  mret (join LF styles).

(** ** normalizeProps.ts *)

Definition BREAKPOINT_PROPS : list string := ["gap"; "direction"; "grow"].

(** The callback of [BREAKPOINT_PROPS.forEach], lines 75-82. *)
Definition normalize_breakpoint_prop (props normalizedProps : loc)
    (propName : string) : M unit :=
  value ← read (get_prop (VObject props) propName);
  if negb (strict_eq value VUndefined) && negb (String.eqb (typeof value) "object")
  then
    wrapped ← alloc {[ "sm" := value ]};
    set_prop normalizedProps propName (VObject wrapped)
  else mret tt.

(** [normalizeProps], lines 69-99. *)
Definition normalizeProps (props : loc) : M loc :=
  p ← read (deref props);
  normalizedProps ← alloc p;
  for_each BREAKPOINT_PROPS (normalize_breakpoint_prop props normalizedProps) ;;
  spacing ← read (get_prop (VObject props) "spacing");
  (if negb (strict_eq spacing VUndefined)
   then
     if String.eqb (typeof spacing) "number"
     then
       inner ← alloc {[ "all" := spacing ]};
       outer ← alloc {[ "sm" := VObject inner ]};
       set_prop normalizedProps "spacing" (VObject outer)
     else
       b ← read (has_breakpoint_key spacing);
       if negb b
       then
         outer ← alloc {[ "sm" := spacing ]};
         set_prop normalizedProps "spacing" (VObject outer)
       else mret tt
   else mret tt) ;;
  mret normalizedProps.

(** [resolve(tier, normalize(raw))]: the two stages run in sequence. *)
Definition resolve_normalized (breakpoint : Breakpoint) (raw : loc) (h : heap)
    : result string :=
  match normalizeProps raw h with
  | Ok (normalizedProps, h') => styleFlex breakpoint normalizedProps h'
  | Throw e => Throw e
  end.

(** ** The prop types *)

(** Every entry of an object satisfies [P]. *)
Definition obj_all (P : string → value → bool) (o : object) : bool :=
  forallb (fun kv => P kv.1 kv.2) (map_to_list o).

Definition is_bp_key (k : string) : bool :=
  String.eqb k "sm" || String.eqb k "md" || String.eqb k "lg".

Definition is_side_key (k : string) : bool :=
  String.eqb k "all" || String.eqb k "horizontal" || String.eqb k "vertical"
  || String.eqb k "top" || String.eqb k "right" || String.eqb k "bottom"
  || String.eqb k "left".

(** Modelled from the spec: [types.ts] is not among the sources.  GapSize is
    "an integer scale value in a fixed discrete range [0..6]". *)
Definition is_GapSize (v : value) : bool :=
  match v with
  | VNumber n => (0 <=? n) && (n <=? 6)
  | _ => false
  end.

(** Modelled from the spec: the scalar of [grow] is a number; the model
    takes the integers whose [String(n)] is their decimal text. *)
Definition is_grow (v : value) : bool :=
  match v with
  | VNumber n => Z.abs n <? 10 ^ 21
  | _ => false
  end.

Fixpoint string_all (P : ascii → bool) (s : string) : bool :=
  match s with
  | EmptyString => true
  | String c s' => P c && string_all P s'
  end.

Definition is_keyword_char (c : ascii) : bool :=
  let n := nat_of_ascii c in
  ((97 <=? n)%nat && (n <=? 122)%nat) || (n =? 45)%nat.

(** Modelled from the spec: the scalars of [direction], [alignItems] and
    [justifyContent] are CSS keywords ("row", "column", "flex-start",
    "space-between", ...): lower-case letters and hyphens. *)
Definition is_keyword (v : value) : bool :=
  match v with
  | VString s => string_all is_keyword_char s
  | _ => false
  end.

(** Modelled from the spec: [type] selects "padding" or "margin". *)
Definition is_spacing_type (v : value) : bool :=
  strict_eq v (VString "padding") || strict_eq v (VString "margin").

(** Modelled from the spec: SpacingDefinition is "a record with optional
    fields {all, horizontal, vertical, top, right, bottom, left}, each a
    GapSize". *)
Definition is_SpacingDefinition (h : heap) (v : value) : bool :=
  match v with
  | VObject l =>
      match h !! l with
      | Some o => obj_all (fun k x => is_side_key k && is_GapSize x) o
      | None => false
      end
  | _ => false
  end.

(** Modelled from the spec: BreakpointMap<T> is "a mapping keyed by a subset
    of {sm, md, lg} ... to a value of type T". *)
Definition is_BreakpointMap (T : value → bool) (h : heap) (v : value) : bool :=
  match v with
  | VObject l =>
      match h !! l with
      | Some o => obj_all (fun k x => is_bp_key k && T x) o
      | None => false
      end
  | _ => false
  end.

(** An optional property: absent, or of type [T]. *)
Definition optional (T : value → bool) (v : value) : bool :=
  strict_eq v VUndefined || T v.

(** [T | BreakpointMap<T>]. *)
Definition responsive (T : value → bool) (h : heap) (v : value) : bool :=
  T v || is_BreakpointMap T h v.

(** [GapSize | SpacingDefinition | BreakpointMap<SpacingDefinition>]. *)
Definition is_spacing_prop (h : heap) (v : value) : bool :=
  is_GapSize v || is_SpacingDefinition h v
  || is_BreakpointMap (is_SpacingDefinition h) h v.

(** Modelled from the spec: FlexProps, the raw prop record of section 3.
    Properties other than the seven named there (children, ...) are free. *)
Definition is_FlexProps (h : heap) (props : loc) : bool :=
  match h !! props with
  | Some p =>
      optional (responsive is_GapSize h) (field p "gap")
      && optional (responsive is_keyword h) (field p "direction")
      && optional (responsive is_grow h) (field p "grow")
      && optional (is_spacing_prop h) (field p "spacing")
      && optional is_keyword (field p "alignItems")
      && optional is_keyword (field p "justifyContent")
      && optional is_spacing_type (field p "type")
  | None => false
  end.

(** ** Text: occurrences of one string in another *)

(** [s.startsWith(pat)]. *)
Fixpoint startsWith (pat s : string) : bool :=
  match pat, s with
  | EmptyString, _ => true
  | String _ _, EmptyString => false
  | String c pat', String d s' => Ascii.eqb c d && startsWith pat' s'
  end.

(** [s.includes(pat)]. *)
Fixpoint includes (pat s : string) : bool :=
  startsWith pat s
  || match s with
     | EmptyString => false
     | String _ s' => includes pat s'
     end.

Definition contains (pat s : string) : Prop :=
  ∃ pre post, s = pre +:+ pat +:+ post.

Definition starts_with (pat s : string) : Prop :=
  ∃ post, s = pat +:+ post.

Fixpoint ends_with (suf s : string) : bool :=
  String.eqb suf s
  || match s with
     | EmptyString => false
     | String _ s' => ends_with suf s'
     end.

Definition no_char (c : ascii) (s : string) : bool :=
  string_all (fun x => negb (Ascii.eqb x c)) s.

(** What follows a line in [xs.join("\n")] when [rest] comes after it. *)
Definition continued (rest : list string) : string :=
  match rest with
  | [] => ""
  | _ :: _ => LF +:+ join LF rest
  end.

(** ** The spacing rule in the words of the specification (section 4.3) *)

(** A field of a SpacingDefinition: a gap size, or not set. *)
Definition gap_field (o : object) (k : string) : option Z :=
  match o !! k with
  | Some (VNumber n) => Some n
  | _ => None
  end.

(** The value a gap field has in the store. *)
Definition gap_value (x : option Z) : value := from_option VNumber VUndefined x.

(** "first defined value wins, later operands unused once one is defined". *)
Fixpoint first_defined (xs : list (option Z)) : option Z :=
  match xs with
  | [] => None
  | Some n :: _ => Some n
  | None :: xs' => first_defined xs'
  end.

(** The four sides "in fixed order top, right, bottom, left", each resolved
    as side, then axis, then all. *)
Definition resolved_sides (o : object) : list (string * option Z) :=
  [ ("top", first_defined [gap_field o "top"; gap_field o "vertical"; gap_field o "all"]);
    ("right", first_defined [gap_field o "right"; gap_field o "horizontal"; gap_field o "all"]);
    ("bottom", first_defined [gap_field o "bottom"; gap_field o "vertical"; gap_field o "all"]);
    ("left", first_defined [gap_field o "left"; gap_field o "horizontal"; gap_field o "all"]) ].

(** The gap token: "[0] literal when size is 0, else the named scale token
    for that size". *)
Definition gap_token (n : Z) : string :=
  if n =? 0 then "0" else "var(--gap-size-" +:+ number_to_string n +:+ ")".

Definition side_declaration (kind : string) (sv : string * option Z) : option string :=
  (fun n => kind +:+ "-" +:+ sv.1 +:+ ": " +:+ gap_token n +:+ ";") <$> sv.2.

(** "if resolved, emit [<kind>-<side>: <gap-token>;]. Join with newline." *)
Definition spacingDeclarations (kind : string) (o : object) : string :=
  join LF (omap (side_declaration kind) (resolved_sides o)).

(** ** What [normalizeProps] leaves behind, property by property *)

(** The test of line 77: a value that gets wrapped. *)
Definition is_scalar (v : value) : bool :=
  negb (strict_eq v VUndefined) && negb (String.eqb (typeof v) "object").

(** Property [k] of the result [o], at address [n] of the final store [hf],
    against the raw record [p]: wrapped as [{ sm: p.k }] in an object
    allocated after the result when [p.k] is a scalar, and the raw property
    otherwise. *)
Definition wrapped_at (n : nat) (hf : heap) (p o : object) (k : string) : Prop :=
  if is_scalar (field p k)
  then ∃ lw : loc, o !! k = Some (VObject lw) ∧ (n < lw)%nat
                   ∧ hf !! lw = Some {[ "sm" := field p k ]}
  else o !! k = p !! k.

Definition has_bp_key (o : object) : bool :=
  bool_decide (is_Some (o !! "sm")) || bool_decide (is_Some (o !! "md"))
  || bool_decide (is_Some (o !! "lg")).

(** The three-way classification of lines 85-96, read off the result. *)
Definition spacing_at (n : nat) (hf : heap) (p o : object) : Prop :=
  match field p "spacing" with
  | VUndefined => o !! "spacing" = p !! "spacing"
  | VNumber x =>
      ∃ outer inner : loc,
        o !! "spacing" = Some (VObject outer) ∧ (n < outer)%nat ∧ (n < inner)%nat
        ∧ hf !! outer = Some {[ "sm" := VObject inner ]}
        ∧ hf !! inner = Some {[ "all" := VNumber x ]}
  | VObject ls =>
      ∃ def : object,
        hf !! ls = Some def
        ∧ if has_bp_key def then o !! "spacing" = p !! "spacing"
          else ∃ outer : loc,
                 o !! "spacing" = Some (VObject outer) ∧ (n < outer)%nat
                 ∧ hf !! outer = Some {[ "sm" := VObject ls ]}
  | _ => False
  end.

(** The raw [spacing] values on which line 90 does not throw. *)
Definition spacing_classifiable (h : heap) (p : object) : Prop :=
  match field p "spacing" with
  | VUndefined | VNumber _ => True
  | VObject ls => is_Some (h !! ls)
  | _ => False
  end.

(** ** The array [styles], from the values extracted for a tier *)

(** The pushes of lines 185-220 as one list; [spacingStyles] is [""] when
    [spacing] did not resolve. *)
Definition emitted (breakpoint : Breakpoint)
    (direction alignItems justifyContent grow gap : value) (spacingStyles : string)
    : list string :=
  (if bool_decide (breakpoint = sm) then ["display: flex;"] else [])
  ++ (if truthy direction
      then ["flex-direction: " +:+ to_string direction +:+ ";"] else [])
  ++ (if truthy alignItems
      then ["align-items: " +:+ to_string alignItems +:+ ";"] else [])
  ++ (if truthy justifyContent
      then ["justify-content: " +:+ to_string justifyContent +:+ ";"] else [])
  ++ (if negb (strict_eq grow VUndefined)
      then ["flex-grow: " +:+ to_string grow +:+ ";"; "flex-basis: 0;"] else [])
  ++ (if negb (strict_eq gap VUndefined)
      then ["gap: var(--gap-size-" +:+ to_string gap +:+ ");"] else [])
  ++ (if truthy (VString spacingStyles) then [spacingStyles] else []).

(** A declaration [key: rest] with one of the [keys] and no further colon. *)
Definition declaration_of (keys : list string) (x : string) : Prop :=
  ∃ key rest, key ∈ keys ∧ x = key +:+ ":" +:+ rest ∧ no_char ":" rest = true.

(** [x] has no occurrence of the text [pk: pv]. *)
Definition clean (pk pv : string) (x : string) : Prop :=
  ¬ contains (pk +:+ ":" +:+ pv) x.

(** The keys are colon-free and none ends with [pk]. *)
Definition keys_differ (pk : string) (keys : list string) : bool :=
  forallb (fun key => no_char ":" key && negb (ends_with pk key)) keys.

Definition spacing_keys : list string :=
  [ "padding-top"; "padding-right"; "padding-bottom"; "padding-left";
    "margin-top"; "margin-right"; "margin-bottom"; "margin-left" ].

(** ** Running the code on the inputs the specification names *)

Definition heap_gap0 : heap :=
  [ {[ "gap" := VObject 1%nat ]}; {[ "sm" := VNumber 0 ]} ].

Definition heap_scenario_md : heap :=
  [ {[ "direction" := VObject 1%nat; "spacing" := VObject 2%nat ]};
    {[ "sm" := VString "column"; "md" := VString "row" ]};
    {[ "md" := VObject 3%nat ]};
    {[ "horizontal" := VNumber 2 ]} ].

Definition heap_spacing_priority : heap :=
  [ {[ "all" := VNumber 1; "horizontal" := VNumber 2; "top" := VNumber 3 ]} ].

(** [{gap: 2, direction: "row", grow: 0, spacing: 3, alignItems: "center"}]. *)
Definition heap_scalars : heap :=
  [ {[ "gap" := VNumber 2; "direction" := VString "row"; "grow" := VNumber 0;
       "spacing" := VNumber 3; "alignItems" := VString "center" ]} ].

(** [{spacing: {all: 3}}]: a bare SpacingDefinition. *)
Definition heap_spacing_bare : heap :=
  [ {[ "spacing" := VObject 1%nat ]}; {[ "all" := VNumber 3 ]} ].

(** [{spacing: {all: 3, sm: 1}}]: meant as a SpacingDefinition, with a key
    named like a breakpoint. *)
Definition heap_spacing_ambiguous : heap :=
  [ {[ "spacing" := VObject 1%nat ]}; {[ "all" := VNumber 3; "sm" := VNumber 1 ]} ].

(** [{grow: {sm: 1, md: 0}, direction: "row"}]. *)
Definition heap_grow : heap :=
  [ {[ "grow" := VObject 1%nat; "direction" := VString "row" ]};
    {[ "sm" := VNumber 1; "md" := VNumber 0 ]} ].

(** ** Raw records beyond the prop types *)

(** The raw [spacing] values on which line 90 applies [in] to something
    that is not an object: [null], a boolean, a string. *)
Definition spacing_rejected (v : value) : bool :=
  match v with
  | VNull | VBool _ | VString _ => true
  | _ => false
  end.

(** A [spacing] that is an object is an object of the store. *)
Definition spacing_in_store (h : heap) (p : object) : bool :=
  match field p "spacing" with
  | VObject ls => bool_decide (is_Some (h !! ls))
  | _ => true
  end.

(** The raw [spacing] is absent, a number, or an object of the store. *)
Definition normalizable (h : heap) (p : object) : bool :=
  spacing_in_store h p && negb (spacing_rejected (field p "spacing")).

(** The raw [spacing] is absent, or an object with a breakpoint key. *)
Definition spacing_per_breakpoint (h : heap) (p : object) : bool :=
  match field p "spacing" with
  | VUndefined => true
  | VObject ls =>
      match h !! ls with
      | Some def => has_bp_key def
      | None => false
      end
  | _ => false
  end.

(** No breakpoint property is a scalar, and [spacing] is absent or
    per-breakpoint: nothing for [normalizeProps] to wrap. *)
Definition already_normalized (h : heap) (p : object) : bool :=
  forallb (fun k => negb (is_scalar (field p k))) BREAKPOINT_PROPS
  && spacing_per_breakpoint h p.

(** The six properties [styleFlex] extracts a value from. *)
Definition style_props : list string :=
  ["direction"; "gap"; "grow"; "alignItems"; "justifyContent"; "spacing"].

(** [v] yields no value at the tier: it is absent; or a scalar and the tier
    is not [sm]; or an object of the store whose entry for the tier is
    absent. *)
Definition silent_at (breakpoint : Breakpoint) (h : heap) (v : value) : bool :=
  match v with
  | VUndefined => true
  | VNull => false
  | VObject l =>
      match h !! l with
      | Some o => strict_eq (field o (bp_key breakpoint)) VUndefined
      | None => false
      end
  | _ => negb (bool_decide (breakpoint = sm))
  end.

Definition silent_record (breakpoint : Breakpoint) (h : heap) (props : loc) : bool :=
  match h !! props with
  | Some p => forallb (fun k => silent_at breakpoint h (field p k)) style_props
  | None => false
  end.

(** One of the six properties is [null]. *)
Definition has_null_prop (p : object) : bool :=
  existsb (fun k => strict_eq (field p k) VNull) style_props.

(** The characters of a declaration's value: no colon, no semicolon, no
    line feed. *)
Definition is_value_char (c : ascii) : bool :=
  negb (Ascii.eqb c ":") && negb (Ascii.eqb c ";")
  && negb (Ascii.eqb c (ascii_of_nat 10)).

(** The CSS properties [styleFlex] and [styleSpacing] write. *)
Definition property_names : list string :=
  [ "display"; "flex-direction"; "align-items"; "justify-content";
    "flex-grow"; "flex-basis"; "gap" ] ++ spacing_keys.

(** One declaration [name: value;] on one line. *)
Definition is_declaration (x : string) : Prop :=
  ∃ name value,
    name ∈ property_names ∧ x = name +:+ ": " +:+ value +:+ ";"
    ∧ string_all is_value_char value = true.

(** [{gap: {sm: 1}, spacing: {md: {all: 2}}, children: null}]: nothing to
    wrap. *)
Definition heap_normalized : heap :=
  [ {[ "gap" := VObject 1%nat; "spacing" := VObject 2%nat; "children" := VNull ]};
    {[ "sm" := VNumber 1 ]};
    {[ "md" := VObject 3%nat ]};
    {[ "all" := VNumber 2 ]} ].

(** [{spacing: "2"}]: a string where a number is meant. *)
Definition heap_spacing_string : heap := [ {[ "spacing" := VString "2" ]} ].

(** [{direction: null, gap: 2}]. *)
Definition heap_null_direction : heap :=
  [ {[ "direction" := VNull; "gap" := VNumber 2 ]} ].

(** ** Text lemmas *)

#[local] Arguments String.append !_ _ / : simpl nomatch.

Lemma append_nil_r (s : string) : s +:+ "" = s.
Proof. induction s as [|c s IH]; simpl; [done | by rewrite IH]. Qed.

Lemma append_assoc (a b c : string) : (a +:+ b) +:+ c = a +:+ (b +:+ c).
Proof. induction a as [|x a IH]; simpl; [done | by rewrite IH]. Qed.


(** Two ways of cutting one text: one cut lies before the other. *)
Lemma append_split (a b c d : string) :
  a +:+ b = c +:+ d →
  (∃ m, c = a +:+ m ∧ b = m +:+ d) ∨ (∃ m, a = c +:+ m ∧ d = m +:+ b).
Proof.
  revert c. induction a as [|x a IH]; intros c H; simpl in H.
  - left. exists c. by subst b.
  - destruct c as [|y c]; simpl in H.
    + right. exists (String x a). by subst d.
    + injection H as -> H. destruct (IH _ H) as [[m [-> ->]]|[m [-> ->]]].
      * left. by exists m.
      * right. by exists m.
Qed.

Lemma startsWith_spec (pat s : string) :
  startsWith pat s = true ↔ starts_with pat s.
Proof.
  revert s. induction pat as [|c pat IH]; intros s; simpl.
  - split; [intros _; by exists s | done].
  - destruct s as [|d s].
    + split; [done | intros [post H]; discriminate H].
    + rewrite andb_true_iff, Ascii.eqb_eq, IH.
      split.
      * intros [-> [post ->]]. by exists post.
      * intros [post H]. simpl in H. injection H as -> ->. split; [done | by exists post].
Qed.

Lemma includes_spec (pat s : string) :
  includes pat s = true ↔ contains pat s.
Proof.
  induction s as [|c s IH]; simpl.
  - rewrite orb_false_r, startsWith_spec. split.
    + intros [post H]. by exists "", post.
    + intros [pre [post H]]. destruct pre; [by exists post | discriminate H].
  - rewrite orb_true_iff, startsWith_spec, IH. split.
    + intros [[post H]|[pre [post H]]].
      * by exists "", post.
      * exists (String c pre), post. simpl. by rewrite H.
    + intros [[|d pre] [post H]]; simpl in H.
      * left. by exists post.
      * right. injection H as -> H. by exists pre, post.
Qed.

Lemma not_includes (pat s : string) : includes pat s = false → ¬ contains pat s.
Proof. intros H Hc. apply includes_spec in Hc. congruence. Qed.

Lemma ends_with_append (pre suf : string) : ends_with suf (pre +:+ suf) = true.
Proof.
  induction pre as [|c pre IH]; simpl.
  - destruct suf; simpl; rewrite ?Ascii.eqb_refl, ?String.eqb_refl; done.
  - rewrite IH. apply orb_true_r.
Qed.

Lemma string_all_append (P : ascii → bool) (a b : string) :
  string_all P (a +:+ b) = string_all P a && string_all P b.
Proof. induction a as [|x a IH]; simpl; [done | by rewrite IH, andb_assoc]. Qed.

Lemma string_all_impl (P Q : ascii → bool) (s : string) :
  (∀ c, P c = true → Q c = true) → string_all P s = true → string_all Q s = true.
Proof.
  intros HPQ. induction s as [|c s IH]; simpl; [done|].
  rewrite !andb_true_iff. intros [? ?]. auto.
Qed.

(** A text with exactly one occurrence of [c] is cut at [c] in one way only. *)
Lemma unique_char_split (c : ascii) (a b a' b' : string) :
  a +:+ String c b = a' +:+ String c b' →
  no_char c a' = true → no_char c b' = true →
  a = a' ∧ b = b'.
Proof.
  unfold no_char. revert a'. induction a as [|x a IH]; intros a' H Ha' Hb'.
  - destruct a' as [|y a']; simpl in *.
    + by injection H.
    + injection H as <- _. rewrite Ascii.eqb_refl in Ha'. done.
  - destruct a' as [|y a']; simpl in *.
    + injection H as -> H. rewrite <- H, string_all_append in Hb'.
      simpl in Hb'. rewrite Ascii.eqb_refl, andb_false_r in Hb'. done.
    + injection H as -> H. apply andb_true_iff in Ha' as [_ Ha'].
      destruct (IH _ H Ha' Hb') as [-> ->]. done.
Qed.

Lemma join_cons (x : string) (rest : list string) :
  join LF (x :: rest) = x +:+ continued rest.
Proof. destruct rest; simpl; [by rewrite append_nil_r | done]. Qed.

Lemma no_char_middle (c : ascii) (a b : string) : no_char c (a +:+ String c b) = false.
Proof.
  unfold no_char. rewrite string_all_append. simpl.
  by rewrite Ascii.eqb_refl, andb_false_r.
Qed.

(** An occurrence of a one-line pattern in [xs.join("\n")] lies inside one
    element of [xs]; what follows it is the rest of that element and then
    the elements after it. *)
Lemma occurrence_in_join (pat : string) (xs : list string) (pre post : string) :
  pat ≠ "" → no_char (ascii_of_nat 10) pat = true →
  join LF xs = pre +:+ pat +:+ post →
  ∃ xs1 x xs2 px qx,
    xs = xs1 ++ x :: xs2 ∧ x = px +:+ pat +:+ qx ∧ post = qx +:+ continued xs2.
Proof.
  intros Hne Hlf. revert pre. induction xs as [|x xs IH]; intros pre H.
  - simpl in H. destruct pre; [|discriminate H]. destruct pat; [done | discriminate H].
  - rewrite join_cons in H.
    destruct (append_split _ _ _ _ H) as [[m [-> Hm]]|[m [-> Hm]]].
    + destruct xs as [|y xs].
      { simpl in Hm. destruct m; [|discriminate Hm].
        destruct pat; [done | discriminate Hm]. }
      unfold continued, LF in Hm. simpl in Hm.
      destruct m as [|c m]; simpl in Hm.
      { destruct pat as [|c pat]; [done|]. simpl in Hm. injection Hm as <- _.
        unfold no_char in Hlf. simpl in Hlf. rewrite ?Ascii.eqb_refl in Hlf. done. }
      injection Hm as <- Hm.
      destruct (IH _ Hm) as (xs1 & x' & xs2 & px & qx & E & -> & ->).
      exists (x :: xs1), (px +:+ pat +:+ qx), xs2, px, qx.
      by rewrite E.
    + symmetry in Hm.
      destruct (append_split _ _ _ _ Hm) as [[m' [-> Hm']]|[m' [-> ->]]].
      * exists [], ((pre +:+ m) +:+ m'), xs, pre, m'.
        destruct m' as [|c m'].
        { rewrite !append_nil_r. simpl in Hm'. by subst post. }
        destruct xs as [|y xs]; [discriminate Hm'|].
        unfold continued, LF in Hm'. simpl in Hm'. injection Hm' as <- _.
        by rewrite no_char_middle in Hlf.
      * exists [], (pre +:+ pat +:+ m'), xs, pre, m'. done.
Qed.

Lemma contains_join (pat : string) (xs : list string) :
  pat ≠ "" → no_char (ascii_of_nat 10) pat = true →
  contains pat (join LF xs) → ∃ x, x ∈ xs ∧ contains pat x.
Proof.
  intros Hne Hlf [pre [post H]].
  destruct (occurrence_in_join _ _ _ _ Hne Hlf H) as (xs1 & x & xs2 & px & qx & -> & -> & _).
  exists (px +:+ pat +:+ qx). split; [|by exists px, qx].
  apply elem_of_app. right. apply elem_of_cons. by left.
Qed.

(** A declaration [key: rest] whose only colon is the one after the key
    contains [pk: pv] only where [key] ends with [pk]. *)
Lemma occurrence_in_declaration (key rest pk pv pre post : string) :
  no_char ":" key = true → no_char ":" rest = true →
  key +:+ ":" +:+ rest = pre +:+ (pk +:+ ":" +:+ pv) +:+ post →
  key = pre +:+ pk ∧ rest = pv +:+ post.
Proof.
  intros Hk Hr H.
  assert (pre +:+ (pk +:+ ":" +:+ pv) +:+ post
          = (pre +:+ pk) +:+ String ":" (pv +:+ post)) as E
    by (by rewrite !append_assoc).
  rewrite E in H. symmetry in H. destruct (unique_char_split _ _ _ _ _ H Hk Hr) as [-> ->].
  done.
Qed.

Lemma declaration_clean (key rest pk pv : string) :
  no_char ":" key = true → no_char ":" rest = true →
  ends_with pk key = false →
  ¬ contains (pk +:+ ":" +:+ pv) (key +:+ ":" +:+ rest).
Proof.
  intros Hk Hr He [pre [post H]].
  destruct (occurrence_in_declaration _ _ _ _ _ _ Hk Hr H) as [-> _].
  by rewrite ends_with_append in He.
Qed.

(** ** The resolver on the scenarios of the specification *)

Example is_FlexProps_gap0 : is_FlexProps heap_gap0 0%nat = true.
Proof. vm_compute. reflexivity. Qed.

Example is_FlexProps_scenario_md : is_FlexProps heap_scenario_md 0%nat = true.
Proof. vm_compute. reflexivity. Qed.

(** C1 (the code departs from the claim): at [{gap: {sm: 0}}] the resolver
    for [sm] returns [display: flex;] and [gap: var(--gap-size-0);], a token
    reference, and the text [gap: 0;] occurs nowhere in it; the sizes 1..6
    render as [gap: var(--gap-size-<n>);]. *)
Theorem gap_zero_renders_token_reference :
  styleFlex sm 0%nat heap_gap0
  = Ok ("display: flex;" +:+ LF +:+ "gap: var(--gap-size-0);")
  ∧ ¬ contains "gap: 0;" ("display: flex;" +:+ LF +:+ "gap: var(--gap-size-0);")
  ∧ Forall (fun n =>
        styleFlex sm 0%nat [ {[ "gap" := VObject 1%nat ]}; {[ "sm" := VNumber n ]} ]
        = Ok ("display: flex;" +:+ LF +:+ "gap: " +:+ gap_token n +:+ ";"))
      [1; 2; 3; 4; 5; 6].
Proof.
  split; [by vm_compute|]. split.
  - apply not_includes. by vm_compute.
  - repeat constructor; by vm_compute.
Qed.

(** C2, as stated, fails: the resolver does not return the declarations in
    the order direction, padding-left, padding-right. *)
Lemma scenario_md_not_left_before_right :
  resolve_normalized md 0%nat heap_scenario_md
  ≠ Ok ("flex-direction: row;" +:+ LF +:+ "padding-left: var(--gap-size-2);"
        +:+ LF +:+ "padding-right: var(--gap-size-2);").
Proof. vm_compute. discriminate. Qed.

(** C2, amended: [resolve("md", normalize({direction: {sm: "column",
    md: "row"}, spacing: {md: {horizontal: 2}}}))] returns exactly
    [flex-direction: row;], [padding-right: var(--gap-size-2);],
    [padding-left: var(--gap-size-2);], one per line, in that order. *)
Theorem scenario_md_right_before_left :
  resolve_normalized md 0%nat heap_scenario_md
  = Ok ("flex-direction: row;" +:+ LF +:+ "padding-right: var(--gap-size-2);"
        +:+ LF +:+ "padding-left: var(--gap-size-2);").
Proof. by vm_compute. Qed.

(** C10: for the empty prop record the resolver returns the empty string at
    [md] and at [lg], and exactly [display: flex;] at [sm]. *)
Theorem empty_props_styles (h : heap) (props : loc) :
  h !! props = Some ∅ →
  styleFlex md props h = Ok ""
  ∧ styleFlex lg props h = Ok ""
  ∧ styleFlex sm props h = Ok "display: flex;".
Proof.
  intros H. unfold styleFlex, styleFlex_styles, deref. rewrite H.
  repeat split; by vm_compute.
Qed.

Lemma empty_props_styles_witness :
  [ (∅ : object) ] !! 0%nat = Some ∅
  ∧ styleFlex md 0%nat [∅] = Ok ""
  ∧ styleFlex lg 0%nat [∅] = Ok ""
  ∧ styleFlex sm 0%nat [∅] = Ok "display: flex;".
Proof. split; [reflexivity | apply empty_props_styles; reflexivity]. Defined.

(** ** The spacing sub-resolver *)

Lemma obj_all_lookup (P : string → value → bool) (o : object) (k : string) (v : value) :
  obj_all P o = true → o !! k = Some v → P k v = true.
Proof.
  unfold obj_all. rewrite forallb_forall. intros H Hk.
  apply (H (k, v)). apply list_elem_of_In. by apply elem_of_map_to_list.
Qed.

Lemma spacing_def_field (h : heap) (def : loc) (o : object) (k : string) :
  h !! def = Some o → is_SpacingDefinition h (VObject def) = true →
  field o k = gap_value (gap_field o k).
Proof.
  unfold is_SpacingDefinition, field, gap_field. intros -> Hall.
  destruct (o !! k) as [v|] eqn:Hk; [|done].
  apply (obj_all_lookup _ _ _ _ Hall) in Hk.
  apply andb_true_iff in Hk as [_ Hv]. by destruct v.
Qed.

Lemma get_or_object (h : heap) (def : loc) (o : object) (k : string)
    (alt : heap → result value) :
  h !! def = Some o →
  get_or (VObject def) k alt h = if nullish (field o k) then alt h else Ok (field o k).
Proof. intros H. unfold get_or, get_prop, deref. by rewrite H. Qed.

Lemma coalesce_side (h : heap) (def : loc) (o : object) (side axis : string) :
  h !! def = Some o → is_SpacingDefinition h (VObject def) = true →
  get_or (VObject def) side (get_or (VObject def) axis (get_prop (VObject def) "all")) h
  = Ok (gap_value (first_defined [gap_field o side; gap_field o axis; gap_field o "all"])).
Proof.
  intros H Hv. rewrite !(get_or_object _ _ _ _ _ H).
  unfold get_prop, deref. rewrite H. simpl.
  rewrite !(spacing_def_field _ _ _ _ H Hv).
  by destruct (gap_field o side), (gap_field o axis), (gap_field o "all").
Qed.

Lemma getGapSize_token (n : Z) : to_string (getGapSize (VNumber n)) = gap_token n.
Proof.
  unfold getGapSize, gap_token, strict_eq. destruct (Z.eqb_spec n 0) as [->|Hn]; [done|].
  rewrite (bool_decide_eq_false_2 (VNumber n = VNumber 0)) by congruence. done.
Qed.

Lemma push_side_gap_value (kind side : string) (x : option Z) (parts : list string) :
  push_side (VString kind) side (gap_value x) parts
  = parts ++ option_list (side_declaration kind (side, x)).
Proof.
  unfold push_side. destruct x as [n|]; simpl.
  - by rewrite getGapSize_token.
  - by rewrite app_nil_r.
Qed.

Lemma styleSpacing_declarations (h : heap) (kind : string) (def : loc) (o : object) :
  h !! def = Some o →
  is_SpacingDefinition h (VObject def) = true →
  styleSpacing (VString kind) (VObject def) h = Ok (spacingDeclarations kind o).
Proof.
  intros H Hv. unfold styleSpacing. cbn [truthy negb].
  rewrite !(coalesce_side _ _ _ _ _ H Hv).
  unfold spacingDeclarations, resolved_sides.
  generalize (first_defined [gap_field o "top"; gap_field o "vertical"; gap_field o "all"]),
    (first_defined [gap_field o "right"; gap_field o "horizontal"; gap_field o "all"]),
    (first_defined [gap_field o "bottom"; gap_field o "vertical"; gap_field o "all"]),
    (first_defined [gap_field o "left"; gap_field o "horizontal"; gap_field o "all"]).
  intros t r b l. cbn [mbind result_bind mret result_ret].
  rewrite !push_side_gap_value.
  by destruct t, r, b, l.
Qed.

(** C3: on every SpacingDefinition the spacing sub-resolver resolves each
    side as side, then axis, then all (top and bottom through vertical,
    right and left through horizontal) and emits one declaration per
    resolved side in the order top, right, bottom, left, skipping the
    sides with no value. *)
Theorem spacing_sides_by_priority (h : heap) (kind : string) (def : loc) (o : object) :
  h !! def = Some o →
  is_SpacingDefinition h (VObject def) = true →
  styleSpacing (VString kind) (VObject def) h = Ok (spacingDeclarations kind o).
Proof. apply styleSpacing_declarations. Qed.

Lemma spacing_sides_by_priority_witness :
  heap_spacing_priority !! 0%nat
  = Some {[ "all" := VNumber 1; "horizontal" := VNumber 2; "top" := VNumber 3 ]}
  ∧ is_SpacingDefinition heap_spacing_priority (VObject 0%nat) = true
  ∧ resolved_sides {[ "all" := VNumber 1; "horizontal" := VNumber 2; "top" := VNumber 3 ]}
    = [("top", Some 3); ("right", Some 2); ("bottom", Some 1); ("left", Some 2)]
  ∧ styleSpacing (VString "padding") (VObject 0%nat) heap_spacing_priority
    = Ok ("padding-top: var(--gap-size-3);" +:+ LF
          +:+ "padding-right: var(--gap-size-2);" +:+ LF
          +:+ "padding-bottom: var(--gap-size-1);" +:+ LF
          +:+ "padding-left: var(--gap-size-2);").
Proof.
  split; [reflexivity|]. split; [vm_compute; reflexivity|].
  split; [vm_compute; reflexivity|].
  etrans; [apply (spacing_sides_by_priority heap_spacing_priority "padding" 0%nat
                    {[ "all" := VNumber 1; "horizontal" := VNumber 2; "top" := VNumber 3 ]})|];
    vm_compute; reflexivity.
Defined.

(** ** The store while [normalizeProps] runs

    The store then has the shape [h ++ o :: ext]: the caller's objects [h],
    untouched; the copy [o] of the raw record, at address [length h]; and
    the wrappers [ext] allocated so far. *)

Lemma frame_lookup_old (h ext : heap) (o p : object) (l : loc) :
  h !! l = Some p → (h ++ o :: ext) !! l = Some p.
Proof. intros H. by apply lookup_app_l_Some. Qed.

Lemma frame_lookup_record (h ext : heap) (o : object) :
  (h ++ o :: ext) !! length h = Some o.
Proof. by apply list_lookup_middle. Qed.

Lemma frame_lookup_new (h ext more : heap) (o o' x : object) :
  (h ++ o' :: (ext ++ x :: more)) !! length (h ++ o :: ext) = Some x.
Proof.
  replace (h ++ o' :: (ext ++ x :: more)) with ((h ++ o' :: ext) ++ x :: more)
    by (by rewrite <- app_assoc).
  apply list_lookup_middle. rewrite !length_app. done.
Qed.

Lemma frame_insert_record (h ext : heap) (o o' : object) :
  <[length h := o']> (h ++ o :: ext) = h ++ o' :: ext.
Proof. rewrite insert_app_r_alt by lia. by rewrite Nat.sub_diag. Qed.

Lemma frame_length (h ext : heap) (o : object) :
  (length h < length (h ++ o :: ext))%nat.
Proof. rewrite length_app. simpl. lia. Qed.

Lemma frame_lookup_past (h ext ext' : heap) (o o' x : object) (l : loc) :
  (length h < l)%nat → (h ++ o :: ext) !! l = Some x →
  (h ++ o' :: (ext ++ ext')) !! l = Some x.
Proof.
  intros Hl. rewrite !lookup_app_r by lia.
  destruct (l - length h)%nat as [|j] eqn:Hj; [lia|]. simpl.
  apply lookup_app_l_Some.
Qed.

Lemma alloc_frame (h ext : heap) (o x : object) :
  alloc x (h ++ o :: ext) = Ok (length (h ++ o :: ext), h ++ o :: (ext ++ [x])).
Proof. unfold alloc. by rewrite <- app_assoc. Qed.

Lemma set_prop_frame (h ext : heap) (o : object) (k : string) (v : value) :
  set_prop (length h) k v (h ++ o :: ext) = Ok (tt, h ++ <[k := v]> o :: ext).
Proof. unfold set_prop. by rewrite frame_lookup_record, frame_insert_record. Qed.

Lemma read_field_frame (h ext : heap) (o p : object) (l : loc) (k : string) :
  h !! l = Some p →
  read (get_prop (VObject l) k) (h ++ o :: ext) = Ok (field p k, h ++ o :: ext).
Proof.
  intros H. unfold read, get_prop, deref.
  by rewrite (frame_lookup_old _ _ _ _ _ H).
Qed.

Lemma normalize_breakpoint_prop_run (h ext : heap) (o p : object) (l : loc) (k : string) :
  h !! l = Some p →
  normalize_breakpoint_prop l (length h) k (h ++ o :: ext)
  = Ok (tt, if is_scalar (field p k)
            then h ++ <[k := VObject (length (h ++ o :: ext))]> o
                   :: (ext ++ [ {[ "sm" := field p k ]} ])
            else h ++ o :: ext).
Proof.
  intros H. unfold normalize_breakpoint_prop.
  unfold mbind, M_bind. rewrite (read_field_frame _ _ _ _ _ _ H).
  fold (is_scalar (field p k)). destruct (is_scalar (field p k)); [|done].
  rewrite alloc_frame. by rewrite set_prop_frame.
Qed.

Lemma wrapped_at_frame (h ext ext' : heap) (p o o' : object) (k : string) :
  wrapped_at (length h) (h ++ o :: ext) p o k → o' !! k = o !! k →
  wrapped_at (length h) (h ++ o' :: (ext ++ ext')) p o' k.
Proof.
  unfold wrapped_at. intros H Ho. destruct (is_scalar (field p k)).
  - destruct H as (lw & H1 & H2 & H3). exists lw.
    rewrite Ho. eauto using frame_lookup_past.
  - by rewrite Ho.
Qed.

Lemma frame_prefix (h ext ext' : heap) (o : object) :
  h ++ o :: ext `prefix_of` h ++ o :: (ext ++ ext').
Proof. exists ext'. by rewrite <- app_assoc. Qed.

(** The [forEach] of lines 75-82, on any list of distinct property names
    the record copy still agrees with the raw record on. *)
Lemma for_each_wraps (h : heap) (p : object) (l : loc) (ks : list string) :
  h !! l = Some p → NoDup ks →
  ∀ (o : object) (ext : heap),
    (∀ k, k ∈ ks → o !! k = p !! k) →
    ∃ (o' : object) (ext' : heap),
      for_each ks (normalize_breakpoint_prop l (length h)) (h ++ o :: ext)
      = Ok (tt, h ++ o' :: (ext ++ ext'))
      ∧ (∀ k, k ∉ ks → o' !! k = o !! k)
      ∧ (∀ k, k ∈ ks → wrapped_at (length h) (h ++ o' :: (ext ++ ext')) p o' k).
Proof.
  intros H. induction ks as [|k ks IH]; intros Hnd o ext Hagree.
  - exists o, []. rewrite app_nil_r. split; [done|]. split; [done|].
    intros k Hk. by apply elem_of_nil in Hk.
  - apply NoDup_cons in Hnd as [Hk Hnd].
    cbn [for_each]. unfold mbind at 1, M_bind at 1.
    rewrite (normalize_breakpoint_prop_run _ _ _ _ _ _ H).
    destruct (is_scalar (field p k)) eqn:Hs.
    + destruct (IH Hnd (<[k := VObject (length (h ++ o :: ext))]> o)
                  (ext ++ [ {[ "sm" := field p k ]} ])) as (o' & ext' & Hrun & Hout & Hin).
      { intros k' Hk'. rewrite lookup_insert_ne by (intros ->; done).
        apply Hagree. by apply elem_of_cons; right. }
      exists o', ([ {[ "sm" := field p k ]} ] ++ ext').
      rewrite Hrun, <- !app_assoc. split; [done|]. split.
      * intros k' Hk'. apply not_elem_of_cons in Hk' as [Hne Hk'].
        rewrite (Hout _ Hk'). by rewrite lookup_insert_ne.
      * intros k' Hk'. destruct (decide (k' ∈ ks)) as [Hks|Hks].
        { specialize (Hin _ Hks). by rewrite <- !app_assoc in Hin. }
        apply elem_of_cons in Hk' as [->|Hk']; [|done].
        unfold wrapped_at. rewrite Hs. exists (length (h ++ o :: ext)).
        rewrite (Hout _ Hks), lookup_insert_eq.
        split; [done|]. split; [apply frame_length|].
        apply (frame_lookup_new h ext ext' o o').
    + destruct (IH Hnd o ext) as (o' & ext' & Hrun & Hout & Hin).
      { intros k' Hk'. apply Hagree. by apply elem_of_cons; right. }
      exists o', ext'. rewrite Hrun. split; [done|]. split.
      * intros k' Hk'. apply not_elem_of_cons in Hk' as [Hne Hk']. by apply Hout.
      * intros k' Hk'. destruct (decide (k' ∈ ks)) as [Hks|Hks]; [by apply Hin|].
        apply elem_of_cons in Hk' as [->|Hk']; [|done].
        unfold wrapped_at. rewrite Hs, (Hout _ Hks).
        apply Hagree, elem_of_cons. by left.
Qed.

Lemma M_bind_Ok {A B : Type} (m : M A) (f : A → M B) (h h' : heap) (a : A) :
  m h = Ok (a, h') → (m ≫= f) h = f a h'.
Proof. unfold mbind, M_bind. by intros ->. Qed.

Lemma strict_eq_undefined (v : value) :
  strict_eq v VUndefined = match v with VUndefined => true | _ => false end.
Proof. by destruct v. Qed.

Lemma has_breakpoint_key_object (h : heap) (ls : loc) (def : object) :
  h !! ls = Some def → has_breakpoint_key (VObject ls) h = Ok (has_bp_key def).
Proof.
  intros H. unfold has_breakpoint_key, has_bp_key, has_prop, deref. rewrite H.
  cbn [mbind result_bind mret result_ret].
  by destruct (bool_decide (is_Some (def !! "sm"))),
    (bool_decide (is_Some (def !! "md"))).
Qed.

Lemma BREAKPOINT_PROPS_NoDup : NoDup BREAKPOINT_PROPS.
Proof. apply (bool_decide_unpack _). by vm_compute. Qed.

Lemma spacing_not_breakpoint_prop : "spacing" ∉ BREAKPOINT_PROPS.
Proof. apply (bool_decide_unpack _). by vm_compute. Qed.

(** What one run of [normalizeProps] does: it returns the record at the
    first free address, leaves every object of the caller's store as it
    was, and the record it returns is the raw one except for the wrapped
    properties. *)
Lemma normalizeProps_spec (h : heap) (l : loc) (p : object) :
  h !! l = Some p → spacing_classifiable h p →
  ∃ (o : object) (ext : heap),
    normalizeProps l h = Ok (length h, h ++ o :: ext)
    ∧ (∀ k, k ∉ BREAKPOINT_PROPS → k ≠ "spacing" → o !! k = p !! k)
    ∧ (∀ k, k ∈ BREAKPOINT_PROPS → wrapped_at (length h) (h ++ o :: ext) p o k)
    ∧ spacing_at (length h) (h ++ o :: ext) p o.
Proof.
  intros H Hc.
  destruct (for_each_wraps h p l BREAKPOINT_PROPS H BREAKPOINT_PROPS_NoDup p [])
    as (o1 & ext1 & Hrun & Hout & Hin); [done|].
  simpl in Hrun, Hin.
  unfold normalizeProps.
  erewrite M_bind_Ok by (unfold read, deref; by rewrite H).
  erewrite M_bind_Ok by reflexivity.
  erewrite M_bind_Ok by exact Hrun.
  erewrite M_bind_Ok by (by apply read_field_frame).
  unfold spacing_classifiable in Hc. unfold spacing_at.
  rewrite strict_eq_undefined.
  destruct (field p "spacing") as [| |b|x|s|ls] eqn:Hsp; try done.
  - exists o1, ext1. split; [reflexivity|]. split; [by intros; apply Hout|].
    split; [done|]. apply Hout, spacing_not_breakpoint_prop.
  - cbn [negb typeof]. change ("number" =? "number")%string with true. cbv iota.
    erewrite M_bind_Ok; cycle 1.
    { erewrite M_bind_Ok by apply alloc_frame.
      erewrite M_bind_Ok by apply alloc_frame.
      apply set_prop_frame. }
    eexists _, _. split; [reflexivity|]. split; [|split].
    + intros k Hk Hne. rewrite lookup_insert_ne by done. by apply Hout.
    + intros k Hk. rewrite <- app_assoc. apply (wrapped_at_frame h ext1 _ p o1); [by apply Hin|].
      apply lookup_insert_ne. intros <-. by apply spacing_not_breakpoint_prop.
    + eexists _, _. rewrite lookup_insert_eq. split; [done|].
      split; [apply frame_length|]. split; [apply frame_length|]. split.
      * apply (frame_lookup_new h (ext1 ++ [ {[ "all" := VNumber x ]} ]) []).
      * rewrite <- app_assoc. apply (frame_lookup_new h ext1 _ o1).
  - destruct Hc as [def Hdef].
    cbn [negb typeof]. change ("object" =? "number")%string with false. cbv iota.
    assert (read (has_breakpoint_key (VObject ls)) (h ++ o1 :: ext1)
            = Ok (has_bp_key def, h ++ o1 :: ext1)) as Hkey.
    { unfold read. rewrite (has_breakpoint_key_object _ _ def); [done|].
      by apply frame_lookup_old. }
    destruct (has_bp_key def) eqn:Hb.
    + exists o1, ext1. split.
      { erewrite M_bind_Ok; cycle 1.
        { erewrite M_bind_Ok by exact Hkey. reflexivity. }
        reflexivity. }
      split; [by intros; apply Hout|]. split; [done|].
      exists def. rewrite Hb. split; [by apply frame_lookup_old|].
      apply Hout, spacing_not_breakpoint_prop.
    + eexists _, _. split.
      { erewrite M_bind_Ok; cycle 1.
        { erewrite M_bind_Ok by exact Hkey. cbn [negb].
          erewrite M_bind_Ok by apply alloc_frame. apply set_prop_frame. }
        reflexivity. }
      split; [|split].
      * intros k Hk Hne. rewrite lookup_insert_ne by done. by apply Hout.
      * intros k Hk. apply (wrapped_at_frame h ext1 _ p o1); [by apply Hin|].
        apply lookup_insert_ne. intros <-. by apply spacing_not_breakpoint_prop.
      * exists def. rewrite Hb. split; [by apply frame_lookup_old|].
        eexists. rewrite lookup_insert_eq. split; [done|].
        split; [apply frame_length|].
        apply (frame_lookup_new h ext1 [] o1).
Qed.

(** ** The prop types across a run *)

Lemma obj_all_intro (P : string → value → bool) (o : object) :
  (∀ k v, o !! k = Some v → P k v = true) → obj_all P o = true.
Proof.
  intros H. unfold obj_all. apply forallb_forall. intros [k v] Hin.
  apply list_elem_of_In, elem_of_map_to_list in Hin. by apply H.
Qed.

Lemma obj_all_singleton (P : string → value → bool) (k : string) (v : value) :
  obj_all P {[ k := v ]} = P k v.
Proof. unfold obj_all. rewrite map_to_list_singleton. simpl. apply andb_true_r. Qed.

Lemma obj_all_impl (P Q : string → value → bool) (o : object) :
  (∀ k v, P k v = true → Q k v = true) → obj_all P o = true → obj_all Q o = true.
Proof. intros HPQ H. apply obj_all_intro. eauto using obj_all_lookup. Qed.

Lemma is_SpacingDefinition_mono (h h' : heap) (v : value) :
  h `prefix_of` h' → is_SpacingDefinition h v = true → is_SpacingDefinition h' v = true.
Proof.
  intros Hpre. unfold is_SpacingDefinition. destruct v as [| | | | |l]; try done.
  destruct (h !! l) as [o|] eqn:Hl; [|done].
  by rewrite (prefix_lookup_Some _ _ _ _ Hl Hpre).
Qed.

Lemma is_BreakpointMap_mono (T T' : value → bool) (h h' : heap) (v : value) :
  (∀ x, T x = true → T' x = true) → h `prefix_of` h' →
  is_BreakpointMap T h v = true → is_BreakpointMap T' h' v = true.
Proof.
  intros HT Hpre. unfold is_BreakpointMap. destruct v as [| | | | |l]; try done.
  destruct (h !! l) as [o|] eqn:Hl; [|done].
  rewrite (prefix_lookup_Some _ _ _ _ Hl Hpre). apply obj_all_impl.
  intros k x. rewrite !andb_true_iff. intros [? ?]. auto.
Qed.

Lemma has_bp_key_true (o : object) :
  has_bp_key o = true → ∃ k v, is_bp_key k = true ∧ o !! k = Some v.
Proof.
  unfold has_bp_key. rewrite !orb_true_iff, !bool_decide_eq_true.
  intros [[[v H]|[v H]]|[v H]]; [exists "sm"|exists "md"|exists "lg"]; by exists v.
Qed.

Lemma has_bp_key_false (o : object) (k : string) (v : value) :
  has_bp_key o = false → is_bp_key k = true → o !! k = Some v → False.
Proof.
  unfold has_bp_key, is_bp_key.
  rewrite !orb_false_iff, !orb_true_iff, !bool_decide_eq_false, !String.eqb_eq.
  intros [[H1 H2] H3] [[->| ->]| ->] Hk; [apply H1 | apply H2 | apply H3]; eauto.
Qed.

Lemma is_side_key_not_bp (k : string) : is_side_key k = true → is_bp_key k = false.
Proof.
  unfold is_side_key. rewrite !orb_true_iff, !String.eqb_eq.
  intros [[[[[[->| ->]| ->]| ->]| ->]| ->]| ->]; reflexivity.
Qed.

Lemma is_FlexProps_classifiable (h : heap) (props : loc) (p : object) :
  h !! props = Some p → is_FlexProps h props = true → spacing_classifiable h p.
Proof.
  unfold is_FlexProps, spacing_classifiable. intros ->.
  rewrite !andb_true_iff. intros [[[[_ H] _] _] _]. revert H.
  unfold optional, is_spacing_prop, is_SpacingDefinition, is_BreakpointMap.
  destruct (field p "spacing") as [| | | | |ls]; try done.
  rewrite strict_eq_undefined. simpl. destruct (h !! ls); [eauto | done].
Qed.

(** A property of type [T | BreakpointMap<T>], [T] a type of scalars, is a
    [BreakpointMap<T>] after the run whenever it was set. *)
Lemma wrapped_is_BreakpointMap (T : value → bool) (h ext : heap) (p o : object)
    (k : string) :
  (∀ v, T v = true → is_scalar v = true) →
  optional (responsive T h) (field p k) = true →
  wrapped_at (length h) (h ++ o :: ext) p o k →
  field p k ≠ VUndefined →
  is_BreakpointMap T (h ++ o :: ext) (field o k) = true.
Proof.
  intros HT Hty Hw Hset. unfold optional, responsive in Hty.
  rewrite strict_eq_undefined in Hty.
  assert (T (field p k) || is_BreakpointMap T h (field p k) = true) as Hty'
    by (by destruct (field p k)).
  unfold wrapped_at in Hw. destruct (is_scalar (field p k)) eqn:Hs.
  - destruct Hw as (lw & Ho & _ & Hl). unfold field at 1. rewrite Ho. simpl.
    rewrite Hl, obj_all_singleton. simpl.
    apply orb_true_iff in Hty' as [Hv|Hm]; [done|].
    unfold is_BreakpointMap in Hm. by destruct (field p k).
  - unfold field at 1. rewrite Hw. fold (field p k).
    apply orb_true_iff in Hty' as [Hv|Hm].
    + apply HT in Hv. congruence.
    + eapply is_BreakpointMap_mono; [done| |exact Hm]. by apply prefix_app_r.
Qed.

Lemma GapSize_is_scalar (v : value) : is_GapSize v = true → is_scalar v = true.
Proof. by destruct v. Qed.

Lemma keyword_is_scalar (v : value) : is_keyword v = true → is_scalar v = true.
Proof. by destruct v. Qed.

Lemma grow_is_scalar (v : value) : is_grow v = true → is_scalar v = true.
Proof. by destruct v. Qed.

Lemma spacing_is_BreakpointMap (h ext : heap) (p o : object) :
  optional (is_spacing_prop h) (field p "spacing") = true →
  spacing_at (length h) (h ++ o :: ext) p o →
  field p "spacing" ≠ VUndefined →
  is_BreakpointMap (is_SpacingDefinition (h ++ o :: ext)) (h ++ o :: ext)
    (field o "spacing") = true.
Proof.
  intros Hty Hsp Hset. unfold optional in Hty. rewrite strict_eq_undefined in Hty.
  assert (h `prefix_of` h ++ o :: ext) as Hpre by (by apply prefix_app_r).
  unfold spacing_at in Hsp.
  destruct (field p "spacing") as [| | |x| |ls] eqn:Hp; try done.
  - destruct Hsp as (outer & inner & Ho & _ & _ & Houter & Hinner).
    unfold field. rewrite Ho. simpl. rewrite Houter, obj_all_singleton. simpl.
    rewrite Hinner, obj_all_singleton. simpl.
    unfold is_spacing_prop in Hty. simpl in Hty. by rewrite !orb_false_r in Hty.
  - destruct Hsp as (def & Hdef & Hif).
    unfold is_spacing_prop in Hty. simpl in Hty.
    assert (h !! ls = Some def) as Hdef'.
    { destruct (h !! ls) as [def'|] eqn:Hls; [|done].
      rewrite (prefix_lookup_Some _ _ _ _ Hls Hpre) in Hdef. congruence. }
    apply orb_true_iff in Hty as [Hsd|Hbm].
    + destruct (has_bp_key def) eqn:Hb.
      * exfalso. apply has_bp_key_true in Hb as (k & v & Hk & Hv).
        rewrite Hdef' in Hsd. apply (obj_all_lookup _ _ _ _ Hsd) in Hv.
        apply andb_true_iff in Hv as [Hv _]. apply is_side_key_not_bp in Hv. congruence.
      * destruct Hif as (outer & Ho & _ & Houter).
        unfold field. rewrite Ho. simpl. rewrite Houter, obj_all_singleton. simpl.
        rewrite Hdef. by rewrite Hdef' in Hsd.
    + destruct (has_bp_key def) eqn:Hb.
      * unfold field. rewrite Hif. fold (field p "spacing"). rewrite Hp.
        eapply is_BreakpointMap_mono; [|exact Hpre|exact Hbm].
        intros x. by apply is_SpacingDefinition_mono.
      * destruct Hif as (outer & Ho & _ & Houter).
        unfold field. rewrite Ho. simpl. rewrite Houter, obj_all_singleton. simpl.
        rewrite Hdef. apply obj_all_intro. intros k v Hk. exfalso.
        rewrite Hdef' in Hbm. pose proof (obj_all_lookup _ _ _ _ Hbm Hk) as Hkv.
        apply andb_true_iff in Hkv as [Hkv _]. eauto using has_bp_key_false.
Qed.

Lemma is_FlexProps_fields (h : heap) (props : loc) (p : object) :
  h !! props = Some p → is_FlexProps h props = true →
  optional (responsive is_GapSize h) (field p "gap") = true
  ∧ optional (responsive is_keyword h) (field p "direction") = true
  ∧ optional (responsive is_grow h) (field p "grow") = true
  ∧ optional (is_spacing_prop h) (field p "spacing") = true
  ∧ optional is_keyword (field p "alignItems") = true
  ∧ optional is_keyword (field p "justifyContent") = true
  ∧ optional is_spacing_type (field p "type") = true.
Proof.
  unfold is_FlexProps. intros ->. rewrite !andb_true_iff. tauto.
Qed.

Lemma in_BREAKPOINT_PROPS (k : string) :
  k ∈ BREAKPOINT_PROPS ↔ k = "gap" ∨ k = "direction" ∨ k = "grow".
Proof. unfold BREAKPOINT_PROPS. rewrite !elem_of_cons, elem_of_nil. tauto. Qed.

(** ** The normaliser *)

(** C4: after normalisation each of [gap], [direction], [grow] and
    [spacing] that the raw record sets is a BreakpointMap, and a bare
    number [n] as [spacing] becomes [{sm: {all: n}}], for every number. *)
Theorem normalized_fields_are_breakpoint_maps (h : heap) (props : loc) (p : object) :
  h !! props = Some p →
  (is_FlexProps h props = true →
   ∃ (l' : loc) (h' : heap) (o : object),
     normalizeProps props h = Ok (l', h') ∧ h' !! l' = Some o
     ∧ (field p "gap" ≠ VUndefined →
        is_BreakpointMap is_GapSize h' (field o "gap") = true)
     ∧ (field p "direction" ≠ VUndefined →
        is_BreakpointMap is_keyword h' (field o "direction") = true)
     ∧ (field p "grow" ≠ VUndefined →
        is_BreakpointMap is_grow h' (field o "grow") = true)
     ∧ (field p "spacing" ≠ VUndefined →
        is_BreakpointMap (is_SpacingDefinition h') h' (field o "spacing") = true))
  ∧ (∀ n : Z, field p "spacing" = VNumber n →
     ∃ (l' : loc) (h' : heap) (o : object) (outer inner : loc),
       normalizeProps props h = Ok (l', h') ∧ h' !! l' = Some o
       ∧ field o "spacing" = VObject outer
       ∧ h' !! outer = Some {[ "sm" := VObject inner ]}
       ∧ h' !! inner = Some {[ "all" := VNumber n ]}).
Proof.
  intros H. split.
  - intros Hv.
    destruct (normalizeProps_spec h props p H (is_FlexProps_classifiable _ _ _ H Hv))
      as (o & ext & Hrun & _ & Hin & Hsp).
    destruct (is_FlexProps_fields _ _ _ H Hv) as (Hg & Hd & Hgr & Hs & _).
    exists (length h), (h ++ o :: ext), o.
    split; [done|]. split; [apply frame_lookup_record|].
    split; [|split; [|split]].
    + apply wrapped_is_BreakpointMap;
        [apply GapSize_is_scalar | done | apply Hin, in_BREAKPOINT_PROPS; tauto].
    + apply wrapped_is_BreakpointMap;
        [apply keyword_is_scalar | done | apply Hin, in_BREAKPOINT_PROPS; tauto].
    + apply wrapped_is_BreakpointMap;
        [apply grow_is_scalar | done | apply Hin, in_BREAKPOINT_PROPS; tauto].
    + by apply spacing_is_BreakpointMap.
  - intros n Hn.
    destruct (normalizeProps_spec h props p H) as (o & ext & Hrun & _ & _ & Hsp).
    { unfold spacing_classifiable. by rewrite Hn. }
    unfold spacing_at in Hsp. rewrite Hn in Hsp.
    destruct Hsp as (outer & inner & Ho & _ & _ & Houter & Hinner).
    exists (length h), (h ++ o :: ext), o, outer, inner.
    split; [done|]. split; [apply frame_lookup_record|].
    unfold field. by rewrite Ho.
Qed.

Lemma normalized_fields_are_breakpoint_maps_witness :
  heap_scalars !! 0%nat
  = Some {[ "gap" := VNumber 2; "direction" := VString "row"; "grow" := VNumber 0;
            "spacing" := VNumber 3; "alignItems" := VString "center" ]}
  ∧ is_FlexProps heap_scalars 0%nat = true
  ∧ ∃ (l' : loc) (h' : heap) (o : object) (outer inner : loc),
      normalizeProps 0%nat heap_scalars = Ok (l', h') ∧ h' !! l' = Some o
      ∧ field o "spacing" = VObject outer
      ∧ h' !! outer = Some {[ "sm" := VObject inner ]}
      ∧ h' !! inner = Some {[ "all" := VNumber 3 ]}.
Proof.
  split; [reflexivity|]. split; [vm_compute; reflexivity|].
  apply (proj2 (normalized_fields_are_breakpoint_maps heap_scalars 0%nat _ eq_refl) 3).
  vm_compute. reflexivity.
Defined.

(** C8: [spacing] is classified by which keys it has: a number [n] becomes
    [{sm: {all: n}}]; an object with none of the keys [sm], [md], [lg] is
    wrapped, by reference, as [{sm: <the object>}]; an object with at least
    one of them is left as it is, whatever its other keys. *)
Theorem spacing_classified_by_key_presence (h : heap) (props : loc) (p : object) :
  h !! props = Some p →
  (∀ n : Z, field p "spacing" = VNumber n →
     ∃ (l' : loc) (h' : heap) (o : object) (outer inner : loc),
       normalizeProps props h = Ok (l', h') ∧ h' !! l' = Some o
       ∧ o !! "spacing" = Some (VObject outer)
       ∧ h' !! outer = Some {[ "sm" := VObject inner ]}
       ∧ h' !! inner = Some {[ "all" := VNumber n ]})
  ∧ (∀ (ls : loc) (def : object),
       field p "spacing" = VObject ls → h !! ls = Some def →
       ∃ (l' : loc) (h' : heap) (o : object),
         normalizeProps props h = Ok (l', h') ∧ h' !! l' = Some o
         ∧ h' !! ls = Some def
         ∧ if has_bp_key def
           then o !! "spacing" = Some (VObject ls)
           else ∃ outer : loc,
                  o !! "spacing" = Some (VObject outer)
                  ∧ h !! outer = None
                  ∧ h' !! outer = Some {[ "sm" := VObject ls ]}).
Proof.
  intros H. split.
  - intros n Hn.
    destruct (normalizeProps_spec h props p H) as (o & ext & Hrun & _ & _ & Hsp).
    { unfold spacing_classifiable. by rewrite Hn. }
    unfold spacing_at in Hsp. rewrite Hn in Hsp.
    destruct Hsp as (outer & inner & Ho & _ & _ & Houter & Hinner).
    exists (length h), (h ++ o :: ext), o, outer, inner.
    split; [done|]. split; [apply frame_lookup_record | done].
  - intros ls def Hls Hdef.
    destruct (normalizeProps_spec h props p H) as (o & ext & Hrun & _ & _ & Hsp).
    { unfold spacing_classifiable. rewrite Hls. eauto. }
    unfold spacing_at in Hsp. rewrite Hls in Hsp.
    destruct Hsp as (def' & Hdef' & Hif).
    rewrite (frame_lookup_old _ _ _ _ _ Hdef) in Hdef'. injection Hdef' as <-.
    exists (length h), (h ++ o :: ext), o.
    split; [done|]. split; [apply frame_lookup_record|].
    split; [by apply frame_lookup_old|].
    destruct (has_bp_key def).
    + rewrite Hif. unfold field in Hls.
      destruct (p !! "spacing") as [v|]; simpl in Hls; by subst.
    + destruct Hif as (outer & Ho & Hfresh & Houter). exists outer.
      split; [done|]. split; [|done]. apply lookup_ge_None. lia.
Qed.

Lemma spacing_classified_by_key_presence_witness :
  heap_spacing_ambiguous !! 0%nat = Some {[ "spacing" := VObject 1%nat ]}
  ∧ ∃ (l' : loc) (h' : heap) (o : object),
      normalizeProps 0%nat heap_spacing_ambiguous = Ok (l', h') ∧ h' !! l' = Some o
      ∧ h' !! 1%nat = Some {[ "all" := VNumber 3; "sm" := VNumber 1 ]}
      ∧ o !! "spacing" = Some (VObject 1%nat).
Proof.
  split; [reflexivity|].
  destruct (proj2 (spacing_classified_by_key_presence heap_spacing_ambiguous 0%nat _ eq_refl)
              1%nat {[ "all" := VNumber 3; "sm" := VNumber 1 ]})
    as (l' & h' & o & Hrun & Ho & Hdef & Hif); [vm_compute; reflexivity..|].
  exists l', h', o. repeat split; [exact Hrun | exact Ho | exact Hdef | exact Hif].
Defined.

(** C9: [normalizeProps] returns a record at a fresh address and changes no
    object of the caller's store, the raw record included; every property
    of the result other than [gap], [direction], [grow] and [spacing] is
    the raw record's, and a property the raw record lacks is lacking in
    the result. *)
Theorem normalizeProps_frame (h : heap) (props : loc) (p : object) :
  h !! props = Some p →
  is_FlexProps h props = true →
  ∃ (l' : loc) (h' : heap) (o : object),
    normalizeProps props h = Ok (l', h')
    ∧ h !! l' = None
    ∧ h `prefix_of` h'
    ∧ h' !! props = Some p
    ∧ h' !! l' = Some o
    ∧ (∀ k, k ∉ ["gap"; "direction"; "grow"; "spacing"] → o !! k = p !! k)
    ∧ (∀ k, p !! k = None → o !! k = None).
Proof.
  intros H Hv.
  destruct (normalizeProps_spec h props p H (is_FlexProps_classifiable _ _ _ H Hv))
    as (o & ext & Hrun & Hout & Hin & Hsp).
  exists (length h), (h ++ o :: ext), o.
  split; [done|]. split; [by apply lookup_ge_None|].
  split; [by apply prefix_app_r|]. split; [by apply frame_lookup_old|].
  split; [apply frame_lookup_record|]. split.
  - intros k Hk. apply Hout.
    + rewrite in_BREAKPOINT_PROPS. intros Hin'. apply Hk.
      rewrite !elem_of_cons. tauto.
    + intros ->. apply Hk. rewrite !elem_of_cons. tauto.
  - intros k Hk.
    assert (field p k = VUndefined) as Hu by (unfold field; by rewrite Hk).
    destruct (decide (k ∈ BREAKPOINT_PROPS)) as [Hbp|Hbp].
    { specialize (Hin _ Hbp). unfold wrapped_at in Hin. rewrite Hu in Hin.
      simpl in Hin. by rewrite Hin. }
    destruct (decide (k = "spacing")) as [->|Hne].
    { unfold spacing_at in Hsp. rewrite Hu in Hsp. by rewrite Hsp. }
    by rewrite Hout.
Qed.

Lemma normalizeProps_frame_witness :
  heap_scalars !! 0%nat
  = Some {[ "gap" := VNumber 2; "direction" := VString "row"; "grow" := VNumber 0;
            "spacing" := VNumber 3; "alignItems" := VString "center" ]}
  ∧ is_FlexProps heap_scalars 0%nat = true
  ∧ ∃ (l' : loc) (h' : heap) (o : object),
      normalizeProps 0%nat heap_scalars = Ok (l', h')
      ∧ heap_scalars !! l' = None
      ∧ heap_scalars `prefix_of` h'
      ∧ h' !! 0%nat = heap_scalars !! 0%nat
      ∧ h' !! l' = Some o
      ∧ (∀ k, k ∉ ["gap"; "direction"; "grow"; "spacing"] →
              o !! k = ({[ "gap" := VNumber 2; "direction" := VString "row";
                           "grow" := VNumber 0; "spacing" := VNumber 3;
                           "alignItems" := VString "center" ]} : object) !! k)
      ∧ (∀ k, ({[ "gap" := VNumber 2; "direction" := VString "row";
                  "grow" := VNumber 0; "spacing" := VNumber 3;
                  "alignItems" := VString "center" ]} : object) !! k = None →
              o !! k = None).
Proof.
  split; [reflexivity|]. split; [vm_compute; reflexivity|].
  apply (normalizeProps_frame heap_scalars 0%nat _ eq_refl).
  vm_compute. reflexivity.
Defined.

Lemma has_bp_key_sm (v : value) : has_bp_key {[ "sm" := v ]} = true.
Proof.
  unfold has_bp_key. rewrite lookup_singleton_eq.
  by rewrite (bool_decide_eq_true_2 (is_Some (Some v))) by eauto.
Qed.

Lemma field_eq (o p : object) (k : string) : o !! k = p !! k → field o k = field p k.
Proof. unfold field. by intros ->. Qed.

(** After one run no breakpoint property of the result is a scalar. *)
Lemma wrapped_not_scalar (n : nat) (hf : heap) (p o : object) (k : string) :
  wrapped_at n hf p o k → is_scalar (field o k) = false.
Proof.
  unfold wrapped_at. destruct (is_scalar (field p k)) eqn:Hs.
  - intros (lw & Ho & _). unfold field. by rewrite Ho.
  - intros Ho. by rewrite (field_eq _ _ _ Ho).
Qed.

(** After one run [spacing] is unset or has a breakpoint key. *)
Lemma spacing_at_normalized (n : nat) (hf : heap) (p o : object) :
  spacing_at n hf p o →
  field o "spacing" = VUndefined
  ∨ ∃ (ls : loc) (def : object),
      field o "spacing" = VObject ls ∧ hf !! ls = Some def ∧ has_bp_key def = true.
Proof.
  unfold spacing_at. destruct (field p "spacing") as [| | |x| |ls] eqn:Hp; try done.
  - intros Ho. left. by rewrite (field_eq _ _ _ Ho).
  - intros (outer & inner & Ho & _ & _ & Houter & _). right.
    exists outer, {[ "sm" := VObject inner ]}.
    unfold field. rewrite Ho. eauto using has_bp_key_sm.
  - intros (def & Hdef & Hif). right. destruct (has_bp_key def) eqn:Hb.
    + exists ls, def. by rewrite (field_eq _ _ _ Hif).
    + destruct Hif as (outer & Ho & _ & Houter).
      exists outer, {[ "sm" := VObject ls ]}.
      unfold field. rewrite Ho. eauto using has_bp_key_sm.
Qed.

(** A second run returns a record with the very properties of the first
    result, and changes nothing in the store the first run left. *)
Lemma normalizeProps_again (h : heap) (props : loc) (p : object) :
  h !! props = Some p → spacing_classifiable h p →
  ∃ (l1 : loc) (h1 : heap) (l2 : loc) (h2 : heap) (o : object),
    normalizeProps props h = Ok (l1, h1)
    ∧ normalizeProps l1 h1 = Ok (l2, h2)
    ∧ h1 !! l1 = Some o
    ∧ h2 !! l2 = Some o
    ∧ h1 `prefix_of` h2.
Proof.
  intros H Hc.
  destruct (normalizeProps_spec h props p H Hc) as (o & ext & Hrun & _ & Hin & Hsp).
  pose proof (frame_lookup_record h ext o) as Ho.
  apply spacing_at_normalized in Hsp.
  destruct (normalizeProps_spec (h ++ o :: ext) (length h) o Ho)
    as (o2 & ext2 & Hrun2 & Hout2 & Hin2 & Hsp2).
  { unfold spacing_classifiable.
    destruct Hsp as [->|(ls & def & -> & Hdef & _)]; [done | eauto]. }
  assert (o2 = o) as ->.
  { apply map_eq. intros k.
    destruct (decide (k ∈ BREAKPOINT_PROPS)) as [Hk|Hk].
    { specialize (Hin2 _ Hk). unfold wrapped_at in Hin2.
      by rewrite (wrapped_not_scalar _ _ _ _ _ (Hin _ Hk)) in Hin2. }
    destruct (decide (k = "spacing")) as [->|Hne]; [|by apply Hout2].
    unfold spacing_at in Hsp2.
    destruct Hsp as [Hu|(ls & def & Hs & Hdef & Hb)].
    - by rewrite Hu in Hsp2.
    - rewrite Hs in Hsp2. destruct Hsp2 as (def' & Hdef' & Hif).
      rewrite (frame_lookup_old _ _ _ _ _ Hdef) in Hdef'. injection Hdef' as <-.
      by rewrite Hb in Hif. }
  exists (length h), (h ++ o :: ext), (length (h ++ o :: ext)),
    ((h ++ o :: ext) ++ o :: ext2), o.
  split; [done|]. split; [done|]. split; [done|].
  split; [apply frame_lookup_record | by apply prefix_app_r].
Qed.

(** C5: [normalizeProps] is idempotent on every FlexProps record: a second
    run succeeds and returns a record with the same properties, holding the
    same values and references, while every object the first run left in
    the store stays as it was. *)
Theorem normalizeProps_idempotent (h : heap) (props : loc) :
  is_FlexProps h props = true →
  ∃ (l1 : loc) (h1 : heap) (l2 : loc) (h2 : heap) (o : object),
    normalizeProps props h = Ok (l1, h1)
    ∧ normalizeProps l1 h1 = Ok (l2, h2)
    ∧ h1 !! l1 = Some o
    ∧ h2 !! l2 = Some o
    ∧ h1 `prefix_of` h2.
Proof.
  intros Hv.
  destruct (h !! props) as [p|] eqn:H;
    [|unfold is_FlexProps in Hv; by rewrite H in Hv].
  eauto using normalizeProps_again, is_FlexProps_classifiable.
Qed.

Lemma normalizeProps_idempotent_witness :
  is_FlexProps heap_scalars 0%nat = true
  ∧ ∃ (l1 : loc) (h1 : heap) (l2 : loc) (h2 : heap) (o : object),
      normalizeProps 0%nat heap_scalars = Ok (l1, h1)
      ∧ normalizeProps l1 h1 = Ok (l2, h2)
      ∧ h1 !! l1 = Some o
      ∧ h2 !! l2 = Some o
      ∧ h1 `prefix_of` h2.
Proof.
  split; [vm_compute; reflexivity|].
  apply normalizeProps_idempotent. vm_compute. reflexivity.
Defined.

(** ** The values extracted for a tier, on a FlexProps record *)

Lemma at_breakpoint_typed (T : value → bool) (scalar : string) (h : heap)
    (breakpoint : Breakpoint) (v : value) :
  (∀ x, T x = true → is_scalar x = true) →
  optional (responsive T h) v = true →
  ∃ r, at_breakpoint breakpoint v scalar h = Ok r ∧ (r = VUndefined ∨ T r = true).
Proof.
  intros HT Hty. unfold optional, responsive in Hty.
  rewrite strict_eq_undefined in Hty. unfold at_breakpoint.
  destruct v as [| |b|n|s|l]; simpl in *.
  - destruct (bool_decide (breakpoint = sm) && _); eauto.
  - rewrite orb_false_r in Hty. by apply HT in Hty.
  - rewrite orb_false_r in Hty. destruct (bool_decide (breakpoint = sm) && _); eauto.
  - rewrite orb_false_r in Hty. destruct (bool_decide (breakpoint = sm) && _); eauto.
  - rewrite orb_false_r in Hty. destruct (bool_decide (breakpoint = sm) && _); eauto.
  - apply orb_true_iff in Hty as [Hty|Hty]; [by apply HT in Hty|].
    unfold deref. destruct (h !! l) as [o|]; [|done]. simpl.
    exists (field o (bp_key breakpoint)). split; [done|]. unfold field.
    destruct (o !! bp_key breakpoint) as [x|] eqn:Hx; [|by left].
    right. apply (obj_all_lookup _ _ _ _ Hty) in Hx.
    by apply andb_true_iff in Hx as [_ Hx].
Qed.

Lemma at_breakpoint_scalar (T : value → bool) (scalar : string) (h : heap)
    (breakpoint : Breakpoint) (v : value) :
  (∀ x, T x = true → is_scalar x = true) →
  optional T v = true →
  ∃ r, at_breakpoint breakpoint v scalar h = Ok r ∧ (r = VUndefined ∨ T r = true).
Proof.
  intros HT Hty. apply at_breakpoint_typed; [done|].
  unfold optional, responsive in *. apply orb_true_iff in Hty as [->| ->]; [done|].
  by rewrite orb_true_r.
Qed.

Lemma spacing_at_breakpoint_typed (h : heap) (breakpoint : Breakpoint) (v : value) :
  optional (is_spacing_prop h) v = true →
  ∃ r, spacing_at_breakpoint breakpoint v h = Ok r
       ∧ (r = VUndefined
          ∨ ∃ (def : loc) (o : object),
              r = VObject def ∧ h !! def = Some o
              ∧ is_SpacingDefinition h (VObject def) = true).
Proof.
  intros Hty. unfold optional, is_spacing_prop in Hty.
  rewrite strict_eq_undefined in Hty. unfold spacing_at_breakpoint.
  destruct v as [| |b|n|s|ls]; simpl in *; try done; eauto.
  destruct (h !! ls) as [def|] eqn:Hls; [|done].
  rewrite (has_breakpoint_key_object _ _ _ Hls). simpl.
  destruct (has_bp_key def) eqn:Hb; [|eauto].
  unfold deref. rewrite Hls. simpl.
  exists (field def (bp_key breakpoint)). split; [done|].
  apply orb_true_iff in Hty as [Hsd|Hbm].
  - exfalso. apply has_bp_key_true in Hb as (k & x & Hk & Hx).
    apply (obj_all_lookup _ _ _ _ Hsd) in Hx.
    apply andb_true_iff in Hx as [Hx _]. apply is_side_key_not_bp in Hx. congruence.
  - unfold field. destruct (def !! bp_key breakpoint) as [x|] eqn:Hx; [|by left].
    right. apply (obj_all_lookup _ _ _ _ Hbm) in Hx.
    apply andb_true_iff in Hx as [_ Hx].
    unfold is_SpacingDefinition in Hx. destruct x as [| | | | |def']; try done.
    destruct (h !! def') as [o'|] eqn:Hdef'; [|done].
    exists def', o'. unfold is_SpacingDefinition. by rewrite Hdef'.
Qed.

Lemma spacing_type_or_padding (v : value) :
  optional is_spacing_type v = true →
  js_or v (VString "padding") = VString "padding"
  ∨ js_or v (VString "padding") = VString "margin".
Proof.
  unfold optional, is_spacing_type, strict_eq.
  rewrite !orb_true_iff, !bool_decide_eq_true.
  intros [->|[->| ->]]; vm_compute; auto.
Qed.

Lemma pushed_spacing_emitted (breakpoint : Breakpoint)
    (direction alignItems justifyContent grow gap : value) (spacingStyles : string) :
  (if truthy (VString spacingStyles)
   then base_styles breakpoint direction alignItems justifyContent grow gap
        ++ [spacingStyles]
   else base_styles breakpoint direction alignItems justifyContent grow gap)
  = emitted breakpoint direction alignItems justifyContent grow gap spacingStyles.
Proof.
  unfold base_styles, emitted.
  by destruct (bool_decide (breakpoint = sm)), (truthy direction), (truthy alignItems),
    (truthy justifyContent), (negb (strict_eq grow VUndefined)),
    (negb (strict_eq gap VUndefined)), (truthy (VString spacingStyles)).
Qed.

Lemma base_styles_emitted (breakpoint : Breakpoint)
    (direction alignItems justifyContent grow gap : value) :
  base_styles breakpoint direction alignItems justifyContent grow gap
  = emitted breakpoint direction alignItems justifyContent grow gap "".
Proof. by rewrite <- pushed_spacing_emitted. Qed.

(** The chain of pushes is the list [emitted]. *)
Lemma styleFlex_styles_emitted (h : heap) (props : loc) (p : object)
    (breakpoint : Breakpoint) :
  h !! props = Some p → is_FlexProps h props = true →
  ∃ (direction alignItems justifyContent grow gap : value) (spacingStyles : string),
    styleFlex_styles breakpoint props h
    = Ok (emitted breakpoint direction alignItems justifyContent grow gap spacingStyles)
    ∧ at_breakpoint breakpoint (field p "grow") "number" h = Ok grow
    ∧ (direction = VUndefined ∨ is_keyword direction = true)
    ∧ (alignItems = VUndefined ∨ is_keyword alignItems = true)
    ∧ (justifyContent = VUndefined ∨ is_keyword justifyContent = true)
    ∧ (grow = VUndefined ∨ is_grow grow = true)
    ∧ (gap = VUndefined ∨ is_GapSize gap = true)
    ∧ (spacingStyles = ""
       ∨ ∃ (kind : string) (o : object),
           (kind = "padding" ∨ kind = "margin")
           ∧ is_SpacingDefinition [o] (VObject 0%nat) = true
           ∧ spacingStyles = spacingDeclarations kind o).
Proof.
  intros H Hv.
  destruct (is_FlexProps_fields _ _ _ H Hv) as (Hg & Hd & Hgr & Hs & Ha & Hj & Ht).
  destruct (at_breakpoint_typed _ "string" h breakpoint _ keyword_is_scalar Hd)
    as (direction & Ed & Hdirection).
  destruct (at_breakpoint_typed _ "number" h breakpoint _ GapSize_is_scalar Hg)
    as (gap & Eg & Hgap).
  destruct (at_breakpoint_typed _ "number" h breakpoint _ grow_is_scalar Hgr)
    as (grow & Egr & Hgrow).
  destruct (at_breakpoint_scalar _ "string" h breakpoint _ keyword_is_scalar Ha)
    as (alignItems & Ea & HalignItems).
  destruct (at_breakpoint_scalar _ "string" h breakpoint _ keyword_is_scalar Hj)
    as (justifyContent & Ej & HjustifyContent).
  destruct (spacing_at_breakpoint_typed h breakpoint _ Hs) as (spacing & Es & Hspacing).
  unfold styleFlex_styles, deref. rewrite H. cbn [mbind result_bind].
  rewrite Ed, Eg, Egr, Ea, Ej, Es. cbn [mbind result_bind]. cbv zeta.
  destruct Hspacing as [->|(def & o & -> & Hdef & Hsd)].
  - exists direction, alignItems, justifyContent, grow, gap, "".
    change (truthy VUndefined) with false. cbv iota.
    rewrite base_styles_emitted. tauto.
  - change (truthy (VObject def)) with true. cbv iota.
    destruct (spacing_type_or_padding _ Ht) as [->| ->];
      rewrite (styleSpacing_declarations _ _ _ _ Hdef Hsd); cbn [mbind result_bind];
      unfold mret, result_ret; rewrite pushed_spacing_emitted.
    + exists direction, alignItems, justifyContent, grow, gap,
        (spacingDeclarations "padding" o).
      repeat (split; [done|]). right. exists "padding", o.
      split; [by left|]. split; [|done].
      unfold is_SpacingDefinition in *. by rewrite Hdef in Hsd.
    + exists direction, alignItems, justifyContent, grow, gap,
        (spacingDeclarations "margin" o).
      repeat (split; [done|]). right. exists "margin", o.
      split; [by right|]. split; [|done].
      unfold is_SpacingDefinition in *. by rewrite Hdef in Hsd.
Qed.

(** ** Which declarations can contain a given text *)

Lemma keyword_char_not_colon (c : ascii) :
  is_keyword_char c = true → negb (Ascii.eqb c ":") = true.
Proof. destruct c as [[] [] [] [] [] [] [] []]; vm_compute; congruence. Qed.

Lemma keyword_no_colon (v : value) :
  is_keyword v = true → no_char ":" (to_string v) = true.
Proof.
  destruct v as [| | | |s|]; try done. simpl.
  apply string_all_impl, keyword_char_not_colon.
Qed.

Lemma string_of_uint_no_colon (d : Decimal.uint) :
  no_char ":" (NilEmpty.string_of_uint d) = true.
Proof. unfold no_char. induction d; simpl; done. Qed.

Lemma number_to_string_no_colon (n : Z) : no_char ":" (number_to_string n) = true.
Proof.
  unfold number_to_string, NilZero.string_of_int.
  assert (∀ d, no_char ":" (NilZero.string_of_uint d) = true) as Hd.
  { intros d. destruct d; try apply string_of_uint_no_colon. done. }
  destruct (Z.to_int n) as [d|d]; [apply Hd|].
  unfold no_char. simpl. apply Hd.
Qed.

Lemma gap_token_no_colon (n : Z) : no_char ":" (gap_token n) = true.
Proof.
  unfold gap_token. destruct (n =? 0); [done|].
  unfold no_char. rewrite !string_all_append.
  fold (no_char ":" (number_to_string n)). by rewrite number_to_string_no_colon.
Qed.

Lemma no_colon_value (s : string) :
  no_char ":" s = true → no_char ":" (" " +:+ s +:+ ";") = true.
Proof.
  unfold no_char. intros H. simpl. rewrite string_all_append. by rewrite H.
Qed.

Lemma side_declaration_of (kind side : string) (x : option Z) (line : string) :
  kind = "padding" ∨ kind = "margin" →
  side ∈ ["top"; "right"; "bottom"; "left"] →
  side_declaration kind (side, x) = Some line →
  declaration_of spacing_keys line.
Proof.
  intros Hk Hs. unfold side_declaration. destruct x as [n|]; [|done]. simpl.
  intros [= <-]. exists (kind +:+ "-" +:+ side), (" " +:+ gap_token n +:+ ";").
  split; [|split].
  - rewrite !elem_of_cons, elem_of_nil in Hs. unfold spacing_keys.
    destruct Hk as [->| ->], Hs as [->|[->|[->|[->|[]]]]]; simpl;
      rewrite !elem_of_cons; tauto.
  - by rewrite !append_assoc.
  - apply no_colon_value, gap_token_no_colon.
Qed.

Lemma spacingDeclarations_parts (kind : string) (o : object) :
  kind = "padding" ∨ kind = "margin" →
  Forall (declaration_of spacing_keys) (omap (side_declaration kind) (resolved_sides o)).
Proof.
  intros Hk. apply Forall_forall. intros line Hl.
  apply list_elem_of_omap in Hl as ([side x] & Hin & Hline).
  apply (side_declaration_of kind side x); [done| |done].
  unfold resolved_sides in Hin. rewrite !elem_of_cons, elem_of_nil in Hin.
  rewrite !elem_of_cons.
  destruct Hin as [[= -> _]|[[= -> _]|[[= -> _]|[[= -> _]|[]]]]]; tauto.
Qed.

Lemma unique_unclean {A : Type} (P : A → Prop) (ys1 ys2 xs1 xs2 : list A) (g x : A) :
  Forall P ys1 → Forall P ys2 → ¬ P x →
  ys1 ++ g :: ys2 = xs1 ++ x :: xs2 →
  xs1 = ys1 ∧ x = g ∧ xs2 = ys2.
Proof.
  intros H1 H2 Hx. revert xs1. induction H1 as [|y ys1 Hy H1 IH]; intros xs1 E.
  - destruct xs1 as [|z xs1]; simpl in E.
    + by injection E as -> ->.
    + injection E as -> E. exfalso. apply Hx.
      rewrite Forall_forall in H2. apply H2. rewrite E.
      apply elem_of_app. right. by left.
  - destruct xs1 as [|z xs1]; simpl in E.
    + injection E as -> _. done.
    + injection E as -> E. destruct (IH _ E) as (-> & -> & ->). done.
Qed.

Section clean.
(** The text [pk: pv] looked for, on one line. *)
Variables pk pv : string.
Hypothesis pattern_one_line : no_char (ascii_of_nat 10) (pk +:+ ":" +:+ pv) = true.

Lemma pattern_nonempty : pk +:+ ":" +:+ pv ≠ "".
Proof. destruct pk; discriminate. Qed.

Lemma declaration_of_clean (keys : list string) (x : string) :
  keys_differ pk keys = true → declaration_of keys x → clean pk pv x.
Proof.
  unfold keys_differ. rewrite forallb_forall.
  intros Hkeys (key & rest & Hkey & -> & Hrest).
  apply list_elem_of_In, Hkeys in Hkey.
  apply andb_true_iff in Hkey as [Hc He]. apply negb_true_iff in He.
  by apply declaration_clean.
Qed.

Lemma join_clean (xs : list string) :
  Forall (clean pk pv) xs → clean pk pv (join LF xs).
Proof.
  intros Hxs Hc.
  apply (contains_join _ _ pattern_nonempty pattern_one_line) in Hc as (x & Hx & Hc).
  rewrite Forall_forall in Hxs. by apply (Hxs _ Hx).
Qed.

Lemma keyword_segment_clean (key : string) (v : value) :
  keys_differ pk [key] = true →
  v = VUndefined ∨ is_keyword v = true →
  Forall (clean pk pv) (if truthy v then [key +:+ ": " +:+ to_string v +:+ ";"] else []).
Proof.
  intros Hkey Hv. destruct (truthy v) eqn:Ht; [|constructor].
  destruct Hv as [->|Hv]; [done|]. repeat constructor.
  apply (declaration_of_clean [key]); [done|].
  exists key, (" " +:+ to_string v +:+ ";"). split; [by left|]. split.
  - done.
  - by apply no_colon_value, keyword_no_colon.
Qed.

Lemma gap_segment_clean (gap : value) :
  keys_differ pk ["gap"] = true →
  gap = VUndefined ∨ is_GapSize gap = true →
  Forall (clean pk pv)
    (if negb (strict_eq gap VUndefined)
     then ["gap: var(--gap-size-" +:+ to_string gap +:+ ");"] else []).
Proof.
  intros Hkey Hv. destruct Hv as [->|Hv]; [constructor|].
  destruct gap as [| | |n| |]; try done. simpl. repeat constructor.
  apply (declaration_of_clean ["gap"]); [done|].
  exists "gap", (" var(--gap-size-" +:+ number_to_string n +:+ ");").
  split; [by left|]. split; [done|].
  unfold no_char. simpl. rewrite string_all_append.
  fold (no_char ":" (number_to_string n)). by rewrite number_to_string_no_colon.
Qed.

Lemma spacing_segment_clean (spacingStyles : string) :
  keys_differ pk spacing_keys = true →
  (spacingStyles = ""
   ∨ ∃ (kind : string) (o : object),
       (kind = "padding" ∨ kind = "margin")
       ∧ is_SpacingDefinition [o] (VObject 0%nat) = true
       ∧ spacingStyles = spacingDeclarations kind o) →
  Forall (clean pk pv) (if truthy (VString spacingStyles) then [spacingStyles] else []).
Proof.
  intros Hkeys [->|(kind & o & Hk & _ & ->)]; [constructor|].
  destruct (truthy _); repeat constructor.
  apply join_clean. eapply Forall_impl; [by apply spacingDeclarations_parts|].
  intros x. by apply declaration_of_clean.
Qed.

(** The declarations pushed before [flex-grow]. *)
Lemma before_grow_clean (breakpoint : Breakpoint) (direction alignItems justifyContent : value) :
  keys_differ pk ["display"; "flex-direction"; "align-items"; "justify-content"] = true
  ∨ (breakpoint ≠ sm
     ∧ keys_differ pk ["flex-direction"; "align-items"; "justify-content"] = true) →
  direction = VUndefined ∨ is_keyword direction = true →
  alignItems = VUndefined ∨ is_keyword alignItems = true →
  justifyContent = VUndefined ∨ is_keyword justifyContent = true →
  Forall (clean pk pv)
    ((if bool_decide (breakpoint = sm) then ["display: flex;"] else [])
     ++ (if truthy direction
         then ["flex-direction: " +:+ to_string direction +:+ ";"] else [])
     ++ (if truthy alignItems
         then ["align-items: " +:+ to_string alignItems +:+ ";"] else [])
     ++ (if truthy justifyContent
         then ["justify-content: " +:+ to_string justifyContent +:+ ";"] else [])).
Proof.
  intros Hkeys Hd Ha Hj.
  assert (keys_differ pk ["flex-direction"] = true
          ∧ keys_differ pk ["align-items"] = true
          ∧ keys_differ pk ["justify-content"] = true) as (Kd & Ka & Kj).
  { unfold keys_differ in *. simpl in *.
    destruct Hkeys as [Hk|[_ Hk]]; rewrite !andb_true_iff in Hk;
      rewrite !andb_true_iff; tauto. }
  rewrite !Forall_app. split; [|split; [|split]].
  - destruct (bool_decide (breakpoint = sm)) eqn:Hb; [|constructor].
    destruct Hkeys as [Hk|[Hne _]]; [|by apply bool_decide_eq_true in Hb].
    repeat constructor. apply (declaration_of_clean ["display"]).
    + unfold keys_differ in *. simpl in *. rewrite !andb_true_iff in Hk.
      rewrite !andb_true_iff; tauto.
    + exists "display", " flex;". split; [by left | done].
  - by apply (keyword_segment_clean "flex-direction").
  - by apply (keyword_segment_clean "align-items").
  - by apply (keyword_segment_clean "justify-content").
Qed.

(** The declarations pushed after [flex-grow]. *)
Lemma after_grow_clean (gap : value) (spacingStyles : string) :
  keys_differ pk ("flex-basis" :: "gap" :: spacing_keys) = true →
  gap = VUndefined ∨ is_GapSize gap = true →
  (spacingStyles = ""
   ∨ ∃ (kind : string) (o : object),
       (kind = "padding" ∨ kind = "margin")
       ∧ is_SpacingDefinition [o] (VObject 0%nat) = true
       ∧ spacingStyles = spacingDeclarations kind o) →
  Forall (clean pk pv)
    ("flex-basis: 0;"
     :: (if negb (strict_eq gap VUndefined)
         then ["gap: var(--gap-size-" +:+ to_string gap +:+ ");"] else [])
     ++ (if truthy (VString spacingStyles) then [spacingStyles] else [])).
Proof.
  intros Hkeys Hg Hs.
  assert (keys_differ pk ["flex-basis"] = true ∧ keys_differ pk ["gap"] = true
          ∧ keys_differ pk spacing_keys = true) as (Kb & Kg & Ks).
  { unfold keys_differ in *. simpl in *. rewrite !andb_true_iff in Hkeys.
    rewrite !andb_true_iff. tauto. }
  constructor; [|rewrite Forall_app; split].
  - apply (declaration_of_clean ["flex-basis"]); [done|].
    exists "flex-basis", " 0;". split; [by left | done].
  - by apply gap_segment_clean.
  - by apply spacing_segment_clean.
Qed.
End clean.

Lemma grow_line_shape (grow : value) :
  is_grow grow = true →
  "flex-grow: " +:+ to_string grow +:+ ";"
  = "flex-grow" +:+ ":" +:+ (" " +:+ to_string grow +:+ ";")
  ∧ no_char ":" (" " +:+ to_string grow +:+ ";") = true.
Proof.
  intros Hg. destruct grow as [| | |n| |]; try done. split; [done|].
  apply no_colon_value, number_to_string_no_colon.
Qed.

Lemma grow_defined (grow : value) :
  grow = VUndefined ∨ is_grow grow = true →
  negb (strict_eq grow VUndefined) = true → is_grow grow = true.
Proof. by intros [->|H]. Qed.

Lemma join_middle (xs ys : list string) (y : string) :
  ∃ pre, join LF (xs ++ y :: ys) = pre +:+ y +:+ continued ys.
Proof.
  induction xs as [|x xs [pre IH]].
  - exists "". apply join_cons.
  - exists (x +:+ LF +:+ pre). simpl app. rewrite join_cons.
    destruct (xs ++ y :: ys) as [|z zs] eqn:E; [by destruct xs|].
    unfold continued. rewrite IH. by rewrite !append_assoc.
Qed.

(** ** The resolver on every FlexProps record *)

Lemma styleFlex_emitted (h : heap) (props : loc) (p : object) (breakpoint : Breakpoint) :
  h !! props = Some p → is_FlexProps h props = true →
  ∃ (direction alignItems justifyContent grow gap : value) (spacingStyles : string),
    styleFlex breakpoint props h
    = Ok (join LF (emitted breakpoint direction alignItems justifyContent grow gap
                     spacingStyles))
    ∧ at_breakpoint breakpoint (field p "grow") "number" h = Ok grow
    ∧ (direction = VUndefined ∨ is_keyword direction = true)
    ∧ (alignItems = VUndefined ∨ is_keyword alignItems = true)
    ∧ (justifyContent = VUndefined ∨ is_keyword justifyContent = true)
    ∧ (grow = VUndefined ∨ is_grow grow = true)
    ∧ (gap = VUndefined ∨ is_GapSize gap = true)
    ∧ (spacingStyles = ""
       ∨ ∃ (kind : string) (o : object),
           (kind = "padding" ∨ kind = "margin")
           ∧ is_SpacingDefinition [o] (VObject 0%nat) = true
           ∧ spacingStyles = spacingDeclarations kind o).
Proof.
  intros H Hv.
  destruct (styleFlex_styles_emitted h props p breakpoint H Hv)
    as (d & a & j & g & gap & ss & E & Hrest).
  exists d, a, j, g, gap, ss. split; [|done].
  unfold styleFlex. by rewrite E.
Qed.

Lemma styleFlex_sm_display (h : heap) (props : loc) (p : object) :
  h !! props = Some p → is_FlexProps h props = true →
  ∃ out, styleFlex sm props h = Ok out ∧ starts_with "display: flex;" out.
Proof.
  intros H Hv.
  destruct (styleFlex_emitted h props p sm H Hv) as (d & a & j & g & gap & ss & E & _).
  eexists. split; [exact E|]. unfold emitted. simpl app.
  rewrite join_cons. by eexists.
Qed.

Lemma styleFlex_no_display (h : heap) (props : loc) (p : object) (breakpoint : Breakpoint) :
  breakpoint ≠ sm →
  h !! props = Some p → is_FlexProps h props = true →
  ∃ out, styleFlex breakpoint props h = Ok out ∧ ¬ contains "display: flex;" out.
Proof.
  intros Hbp H Hv.
  destruct (styleFlex_emitted h props p breakpoint H Hv)
    as (d & a & j & g & gap & ss & E & _ & Hd & Ha & Hj & Hg & Hgap & Hss).
  eexists. split; [exact E|].
  apply (join_clean "display" " flex;"); [done|].
  pose proof (before_grow_clean "display" " flex;" breakpoint d a j
                (or_intror (conj Hbp eq_refl)) Hd Ha Hj) as Hbefore.
  pose proof (after_grow_clean "display" " flex;" eq_refl gap ss eq_refl Hgap Hss)
    as Hafter.
  rewrite !Forall_app in Hbefore. rewrite Forall_cons, Forall_app in Hafter.
  unfold emitted. rewrite !Forall_app.
  assert (Forall (clean "display" " flex;")
            (if negb (strict_eq g VUndefined)
             then ["flex-grow: " +:+ to_string g +:+ ";"; "flex-basis: 0;"] else []))
    as Hgrow.
  { destruct (negb (strict_eq g VUndefined)) eqn:Hdef; [|constructor].
    destruct (grow_line_shape g (grow_defined g Hg Hdef)) as [Eline Hrest].
    repeat constructor; [|tauto].
    apply (declaration_of_clean "display" " flex;" ["flex-grow"]); [done|].
    exists "flex-grow", (" " +:+ to_string g +:+ ";"). split; [by left | done]. }
  tauto.
Qed.

(** C6: for every FlexProps record the output for [sm] starts with
    [display: flex;], and the outputs for [md] and [lg] contain
    [display: flex;] nowhere. *)
Theorem display_only_at_sm (h : heap) (props : loc) :
  is_FlexProps h props = true →
  ∃ out_sm out_md out_lg : string,
    styleFlex sm props h = Ok out_sm ∧ starts_with "display: flex;" out_sm
    ∧ styleFlex md props h = Ok out_md ∧ ¬ contains "display: flex;" out_md
    ∧ styleFlex lg props h = Ok out_lg ∧ ¬ contains "display: flex;" out_lg.
Proof.
  intros Hv.
  destruct (h !! props) as [p|] eqn:H;
    [|unfold is_FlexProps in Hv; by rewrite H in Hv].
  destruct (styleFlex_sm_display h props p H Hv) as (out_sm & E1 & H1).
  destruct (styleFlex_no_display h props p md ltac:(done) H Hv) as (out_md & E2 & H2).
  destruct (styleFlex_no_display h props p lg ltac:(done) H Hv) as (out_lg & E3 & H3).
  by exists out_sm, out_md, out_lg.
Qed.

Lemma display_only_at_sm_witness :
  is_FlexProps heap_scenario_md 0%nat = true
  ∧ ∃ out_sm out_md out_lg : string,
      styleFlex sm 0%nat heap_scenario_md = Ok out_sm
      ∧ starts_with "display: flex;" out_sm
      ∧ styleFlex md 0%nat heap_scenario_md = Ok out_md
      ∧ ¬ contains "display: flex;" out_md
      ∧ styleFlex lg 0%nat heap_scenario_md = Ok out_lg
      ∧ ¬ contains "display: flex;" out_lg.
Proof.
  split; [vm_compute; reflexivity|].
  apply display_only_at_sm. vm_compute. reflexivity.
Defined.

Lemma grow_resolved (grow : value) :
  negb (strict_eq grow VUndefined) = true ↔ grow ≠ VUndefined.
Proof.
  unfold strict_eq. rewrite negb_true_iff, bool_decide_eq_false. done.
Qed.

Lemma styleFlex_grow_paired (h : heap) (props : loc) (p : object)
    (breakpoint : Breakpoint) :
  h !! props = Some p → is_FlexProps h props = true →
  ∃ (out : string) (grow : value),
    styleFlex breakpoint props h = Ok out
    ∧ at_breakpoint breakpoint (field p "grow") "number" h = Ok grow
    ∧ (grow ≠ VUndefined →
       contains ("flex-grow: " +:+ to_string grow +:+ ";" +:+ LF +:+ "flex-basis: 0;") out)
    ∧ (∀ pre post, out = pre +:+ "flex-grow:" +:+ post →
       grow ≠ VUndefined
       ∧ starts_with (" " +:+ to_string grow +:+ ";" +:+ LF +:+ "flex-basis: 0;") post).
Proof.
  intros H Hv.
  destruct (styleFlex_emitted h props p breakpoint H Hv)
    as (d & a & j & g & gap & ss & E & Eg & Hd & Ha & Hj & Hg & Hgap & Hss).
  pose proof (before_grow_clean "flex-grow" "" breakpoint d a j
                (or_introl eq_refl) Hd Ha Hj) as Hbefore.
  pose proof (after_grow_clean "flex-grow" "" eq_refl gap ss eq_refl Hgap Hss) as Hafter.
  exists (join LF (emitted breakpoint d a j g gap ss)), g.
  split; [done|]. split; [done|].
  set (before := (if bool_decide (breakpoint = sm) then _ else _) ++ _) in Hbefore.
  set (after := (if negb (strict_eq gap VUndefined) then _ else _) ++ _) in Hafter.
  destruct (negb (strict_eq g VUndefined)) eqn:Hdef.
  - assert (emitted breakpoint d a j g gap ss
            = before ++ ("flex-grow: " +:+ to_string g +:+ ";")
                        :: "flex-basis: 0;" :: after) as ->
      by (unfold emitted, before, after; rewrite Hdef; by rewrite <- !app_assoc).
    clearbody before after.
    pose proof (proj1 (grow_resolved g) Hdef) as Hne.
    destruct (grow_line_shape g (grow_defined g Hg Hdef)) as [Eline Hrest].
    split.
    + intros _. destruct (join_middle before ("flex-basis: 0;" :: after)
                            ("flex-grow: " +:+ to_string g +:+ ";")) as [pre Ej].
      exists pre, (continued after). rewrite Ej. unfold continued at 1.
      rewrite join_cons. by rewrite !append_assoc.
    + intros pre post Hocc. split; [done|].
      destruct (occurrence_in_join "flex-grow:" _ pre post ltac:(done) eq_refl Hocc)
        as (xs1 & x & xs2 & px & qx & Exs & Ex & Epost).
      destruct (unique_unclean (clean "flex-grow" "") before ("flex-basis: 0;" :: after)
                  xs1 xs2 ("flex-grow: " +:+ to_string g +:+ ";") x Hbefore Hafter)
        as (_ & -> & ->); [|done|].
      { intros Hc. apply Hc. by exists px, qx. }
      rewrite Eline in Ex.
      destruct (occurrence_in_declaration "flex-grow" _ "flex-grow" "" px qx
                  eq_refl Hrest Ex) as [_ Eq].
      simpl in Eq. subst qx post.
      exists (continued after). unfold continued at 1. rewrite join_cons.
      simpl. by rewrite !append_assoc.
  - assert (emitted breakpoint d a j g gap ss = before ++ after) as ->
      by (unfold emitted, before, after; rewrite Hdef; by rewrite <- !app_assoc).
    clearbody before after.
    assert (g = VUndefined) as ->.
    { destruct (decide (g = VUndefined)) as [|Hne]; [done|].
      apply grow_resolved in Hne. congruence. }
    split; [done|].
    intros pre post Hocc. exfalso.
    apply (join_clean "flex-grow" "" eq_refl (before ++ after)).
    + apply Forall_app. split; [done|]. by apply Forall_cons in Hafter as [_ Hafter].
    + by exists pre, post.
Qed.

(** C7: at every tier, on every FlexProps record, when [grow] resolves (an
    explicit 0 included) the output contains [flex-grow: <value>;] with
    [flex-basis: 0;] on the next line, and every occurrence of [flex-grow:]
    in the output is followed by that value, [;], a line feed and
    [flex-basis: 0;]. *)
Theorem grow_paired_with_basis (h : heap) (props : loc) (p : object)
    (breakpoint : Breakpoint) :
  h !! props = Some p → is_FlexProps h props = true →
  ∃ (out : string) (grow : value),
    styleFlex breakpoint props h = Ok out
    ∧ at_breakpoint breakpoint (field p "grow") "number" h = Ok grow
    ∧ (grow ≠ VUndefined →
       contains ("flex-grow: " +:+ to_string grow +:+ ";" +:+ LF +:+ "flex-basis: 0;") out)
    ∧ (∀ pre post, out = pre +:+ "flex-grow:" +:+ post →
       grow ≠ VUndefined
       ∧ starts_with (" " +:+ to_string grow +:+ ";" +:+ LF +:+ "flex-basis: 0;") post).
Proof. apply styleFlex_grow_paired. Qed.

Lemma grow_paired_with_basis_witness :
  heap_grow !! 0%nat = Some {[ "grow" := VObject 1%nat; "direction" := VString "row" ]}
  ∧ is_FlexProps heap_grow 0%nat = true
  ∧ ∃ (out : string) (grow : value),
      styleFlex md 0%nat heap_grow = Ok out
      ∧ at_breakpoint md
          (field {[ "grow" := VObject 1%nat; "direction" := VString "row" ]} "grow")
          "number" heap_grow = Ok grow
      ∧ (grow ≠ VUndefined →
         contains ("flex-grow: " +:+ to_string grow +:+ ";" +:+ LF +:+ "flex-basis: 0;") out)
      ∧ (∀ pre post, out = pre +:+ "flex-grow:" +:+ post →
         grow ≠ VUndefined
         ∧ starts_with (" " +:+ to_string grow +:+ ";" +:+ LF +:+ "flex-basis: 0;") post).
Proof.
  split; [reflexivity|]. split; [vm_compute; reflexivity|].
  apply (grow_paired_with_basis heap_grow 0%nat _ md eq_refl).
  vm_compute. reflexivity.
Defined.

Example grow_zero_at_md :
  styleFlex md 0%nat heap_grow = Ok ("flex-grow: 0;" +:+ LF +:+ "flex-basis: 0;")
  ∧ at_breakpoint md (VObject 1%nat) "number" heap_grow = Ok (VNumber 0).
Proof. split; vm_compute; reflexivity. Qed.

(** ** Beyond the claims: [normalizeProps] *)

Lemma normalizable_classifiable (h : heap) (p : object) :
  normalizable h p = true → spacing_classifiable h p.
Proof.
  unfold normalizable, spacing_in_store, spacing_rejected, spacing_classifiable.
  destruct (field p "spacing"); simpl; try done.
  rewrite andb_true_r. by intros ?%bool_decide_eq_true.
Qed.

(** The [forEach] and the read of [props.spacing] run on any record. *)
Lemma normalizeProps_prefix_run (h : heap) (props : loc) (p : object)
    (k : unit → M loc) (body : value → M unit) :
  h !! props = Some p →
  ∃ (o : object) (ext : heap),
    (p' ← read (deref props);
     normalizedProps ← alloc p';
     for_each BREAKPOINT_PROPS (normalize_breakpoint_prop props normalizedProps) ;;
     spacing ← read (get_prop (VObject props) "spacing");
     body spacing ;; k tt) h
    = (body (field p "spacing") ;; k tt) (h ++ o :: ext).
Proof.
  intros H.
  destruct (for_each_wraps h p props BREAKPOINT_PROPS H BREAKPOINT_PROPS_NoDup p [])
    as (o1 & ext1 & Hrun & _); [done|].
  exists o1, ext1.
  erewrite M_bind_Ok by (unfold read, deref; by rewrite H).
  erewrite M_bind_Ok by reflexivity.
  erewrite M_bind_Ok by exact Hrun.
  erewrite M_bind_Ok by (by apply read_field_frame).
  done.
Qed.

(** X1: [normalizeProps] throws a TypeError exactly when the raw [spacing]
    is [null], a boolean or a string (the [in] of line 90 is applied to it);
    on every other record it returns. *)
Theorem normalizeProps_throws_on_primitive_spacing (h : heap) (props : loc) (p : object) :
  h !! props = Some p → spacing_in_store h p = true →
  if spacing_rejected (field p "spacing")
  then normalizeProps props h = Throw TypeError
  else ∃ (l' : loc) (h' : heap), normalizeProps props h = Ok (l', h').
Proof.
  intros H Hstore. destruct (spacing_rejected (field p "spacing")) eqn:Hrej.
  - unfold normalizeProps.
    destruct (normalizeProps_prefix_run h props p (fun _ => mret (length h))
                (fun spacing =>
                   if negb (strict_eq spacing VUndefined)
                   then
                     if String.eqb (typeof spacing) "number"
                     then
                       inner ← alloc {[ "all" := spacing ]};
                       outer ← alloc {[ "sm" := VObject inner ]};
                       set_prop (length h) "spacing" (VObject outer)
                     else
                       b ← read (has_breakpoint_key spacing);
                       if negb b
                       then
                         outer ← alloc {[ "sm" := spacing ]};
                         set_prop (length h) "spacing" (VObject outer)
                       else mret tt
                   else mret tt) H) as (o & ext & E).
    unfold mbind, M_bind, read, deref, alloc in E |- *. rewrite H in E |- *.
    rewrite E. by destruct (field p "spacing").
  - destruct (normalizeProps_spec h props p H) as (o & ext & Hrun & _).
    { apply normalizable_classifiable. unfold normalizable. by rewrite Hstore, Hrej. }
    eauto.
Qed.

Lemma normalizeProps_throws_on_primitive_spacing_witness :
  heap_spacing_string !! 0%nat = Some {[ "spacing" := VString "2" ]}
  ∧ spacing_in_store heap_spacing_string {[ "spacing" := VString "2" ]} = true
  ∧ normalizeProps 0%nat heap_spacing_string = Throw TypeError.
Proof.
  split; [reflexivity|]. split; [vm_compute; reflexivity|].
  exact (normalizeProps_throws_on_primitive_spacing heap_spacing_string 0%nat
           {[ "spacing" := VString "2" ]} eq_refl eq_refl).
Defined.

(** X2: for each of [gap], [direction], [grow]: a scalar of whatever type
    is replaced by a reference to a new object [{sm: <the scalar>}], and
    anything else ([undefined], [null], an object) is carried over as it is,
    an object by reference. *)
Theorem breakpoint_prop_wrapped_or_kept (h : heap) (props : loc) (p : object) :
  h !! props = Some p → normalizable h p = true →
  ∃ (l' : loc) (h' : heap) (o : object),
    normalizeProps props h = Ok (l', h') ∧ h' !! l' = Some o
    ∧ ∀ k, k ∈ BREAKPOINT_PROPS →
        if is_scalar (field p k)
        then ∃ lw : loc, o !! k = Some (VObject lw) ∧ h !! lw = None
                         ∧ h' !! lw = Some {[ "sm" := field p k ]}
        else o !! k = p !! k.
Proof.
  intros H Hn.
  destruct (normalizeProps_spec h props p H (normalizable_classifiable _ _ Hn))
    as (o & ext & Hrun & _ & Hin & _).
  exists (length h), (h ++ o :: ext), o.
  split; [done|]. split; [apply frame_lookup_record|].
  intros k Hk. specialize (Hin k Hk). unfold wrapped_at in Hin.
  destruct (is_scalar (field p k)); [|done].
  destruct Hin as (lw & Ho & Hlw & Hw). exists lw.
  split; [done|]. split; [|done]. apply lookup_ge_None. lia.
Qed.

Lemma breakpoint_prop_wrapped_or_kept_witness :
  heap_scalars !! 0%nat
  = Some {[ "gap" := VNumber 2; "direction" := VString "row"; "grow" := VNumber 0;
            "spacing" := VNumber 3; "alignItems" := VString "center" ]}
  ∧ normalizable heap_scalars
      {[ "gap" := VNumber 2; "direction" := VString "row"; "grow" := VNumber 0;
         "spacing" := VNumber 3; "alignItems" := VString "center" ]} = true
  ∧ ∃ (l' : loc) (h' : heap) (o : object),
      normalizeProps 0%nat heap_scalars = Ok (l', h') ∧ h' !! l' = Some o
      ∧ ∀ k, k ∈ BREAKPOINT_PROPS →
          if is_scalar
               (field {[ "gap" := VNumber 2; "direction" := VString "row";
                         "grow" := VNumber 0; "spacing" := VNumber 3;
                         "alignItems" := VString "center" ]} k)
          then ∃ lw : loc,
                 o !! k = Some (VObject lw) ∧ heap_scalars !! lw = None
                 ∧ h' !! lw
                   = Some {[ "sm" := field {[ "gap" := VNumber 2;
                                              "direction" := VString "row";
                                              "grow" := VNumber 0;
                                              "spacing" := VNumber 3;
                                              "alignItems" := VString "center" ]} k ]}
          else o !! k
               = ({[ "gap" := VNumber 2; "direction" := VString "row";
                     "grow" := VNumber 0; "spacing" := VNumber 3;
                     "alignItems" := VString "center" ]} : object) !! k.
Proof.
  split; [reflexivity|]. split; [vm_compute; reflexivity|].
  apply (breakpoint_prop_wrapped_or_kept heap_scalars 0%nat _ eq_refl).
  vm_compute. reflexivity.
Defined.

Lemma for_each_no_scalar (h : heap) (p : object) (l : loc) (ks : list string)
    (o : object) (ext : heap) :
  h !! l = Some p →
  forallb (fun k => negb (is_scalar (field p k))) ks = true →
  for_each ks (normalize_breakpoint_prop l (length h)) (h ++ o :: ext)
  = Ok (tt, h ++ o :: ext).
Proof.
  intros H. induction ks as [|k ks IH]; simpl; [done|].
  rewrite andb_true_iff, negb_true_iff. intros [Hk Hks].
  erewrite M_bind_Ok by (by apply normalize_breakpoint_prop_run).
  rewrite Hk. by apply IH.
Qed.

(** X3: on a record with nothing to wrap (no scalar among [gap],
    [direction], [grow]; [spacing] absent or with a breakpoint key)
    [normalizeProps] is a shallow copy: the store gains exactly one object,
    equal to the raw record, and that is the result. *)
Theorem normalizeProps_copies_normalized (h : heap) (props : loc) (p : object) :
  h !! props = Some p → already_normalized h p = true →
  normalizeProps props h = Ok (length h, h ++ [p]).
Proof.
  intros H Hn. unfold already_normalized in Hn.
  apply andb_true_iff in Hn as [Hks Hsp].
  unfold normalizeProps.
  erewrite M_bind_Ok by (unfold read, deref; by rewrite H).
  erewrite M_bind_Ok by reflexivity.
  erewrite M_bind_Ok by (by apply (for_each_no_scalar h p props _ p [])).
  erewrite M_bind_Ok by (by apply read_field_frame).
  unfold spacing_per_breakpoint in Hsp. rewrite strict_eq_undefined.
  destruct (field p "spacing") as [| | | | |ls]; try done.
  destruct (h !! ls) as [def|] eqn:Hls; [|done].
  cbn [negb typeof]. change ("object" =? "number")%string with false. cbv iota.
  erewrite M_bind_Ok; cycle 1.
  { erewrite M_bind_Ok; cycle 1.
    { unfold read. rewrite (has_breakpoint_key_object _ _ def); [done|].
      by apply frame_lookup_old. }
    rewrite Hsp. reflexivity. }
  reflexivity.
Qed.

Lemma normalizeProps_copies_normalized_witness :
  heap_normalized !! 0%nat
  = Some {[ "gap" := VObject 1%nat; "spacing" := VObject 2%nat; "children" := VNull ]}
  ∧ already_normalized heap_normalized
      {[ "gap" := VObject 1%nat; "spacing" := VObject 2%nat; "children" := VNull ]} = true
  ∧ normalizeProps 0%nat heap_normalized
    = Ok (4%nat,
          heap_normalized
          ++ [ {[ "gap" := VObject 1%nat; "spacing" := VObject 2%nat;
                  "children" := VNull ]} ]).
Proof.
  split; [reflexivity|]. split; [vm_compute; reflexivity|].
  apply (normalizeProps_copies_normalized heap_normalized 0%nat _ eq_refl).
  vm_compute. reflexivity.
Defined.

Lemma wrapped_typed (T : value → bool) (h ext : heap) (p o : object) (k : string) :
  (∀ v, T v = true → is_scalar v = true) →
  optional (responsive T h) (field p k) = true →
  wrapped_at (length h) (h ++ o :: ext) p o k →
  optional (responsive T (h ++ o :: ext)) (field o k) = true.
Proof.
  intros HT Hty Hw. destruct (decide (field p k = VUndefined)) as [Hu|Hset].
  - unfold wrapped_at in Hw. rewrite Hu in Hw. simpl in Hw.
    by rewrite (field_eq _ _ _ Hw), Hu.
  - unfold optional, responsive.
    rewrite (wrapped_is_BreakpointMap T h ext p o k HT Hty Hw Hset).
    by rewrite !orb_true_r.
Qed.

Lemma normalized_record_normalized (h ext : heap) (p o : object) :
  (∀ k, k ∈ BREAKPOINT_PROPS → wrapped_at (length h) (h ++ o :: ext) p o k) →
  spacing_at (length h) (h ++ o :: ext) p o →
  already_normalized (h ++ o :: ext) o = true.
Proof.
  intros Hin Hsp. unfold already_normalized. apply andb_true_iff. split.
  - apply forallb_forall. intros k Hk%list_elem_of_In.
    by rewrite (wrapped_not_scalar _ _ _ _ _ (Hin k Hk)).
  - unfold spacing_per_breakpoint.
    destruct (spacing_at_normalized _ _ _ _ Hsp) as [->|(ls & def & -> & -> & Hb)]; done.
Qed.

Lemma normalized_is_FlexProps (h ext : heap) (props : loc) (p o : object) :
  h !! props = Some p → is_FlexProps h props = true →
  (∀ k, k ∉ BREAKPOINT_PROPS → k ≠ "spacing" → o !! k = p !! k) →
  (∀ k, k ∈ BREAKPOINT_PROPS → wrapped_at (length h) (h ++ o :: ext) p o k) →
  spacing_at (length h) (h ++ o :: ext) p o →
  is_FlexProps (h ++ o :: ext) (length h) = true.
Proof.
  intros H Hv Hout Hin Hsp.
  destruct (is_FlexProps_fields _ _ _ H Hv) as (Hg & Hd & Hgr & Hs & Ha & Hj & Ht).
  assert (∀ k, k ∉ BREAKPOINT_PROPS → k ≠ "spacing" → field o k = field p k) as Hsame
    by (intros; by apply field_eq, Hout).
  unfold is_FlexProps. rewrite frame_lookup_record.
  rewrite (wrapped_typed _ h ext p o "gap" GapSize_is_scalar Hg)
    by (apply Hin, in_BREAKPOINT_PROPS; tauto).
  rewrite (wrapped_typed _ h ext p o "direction" keyword_is_scalar Hd)
    by (apply Hin, in_BREAKPOINT_PROPS; tauto).
  rewrite (wrapped_typed _ h ext p o "grow" grow_is_scalar Hgr)
    by (apply Hin, in_BREAKPOINT_PROPS; tauto).
  rewrite (Hsame "alignItems"), (Hsame "justifyContent"), (Hsame "type");
    try discriminate;
    try (rewrite in_BREAKPOINT_PROPS; intros [?|[?|?]]; discriminate).
  rewrite Ha, Hj, Ht. rewrite !andb_true_r. simpl.
  destruct (decide (field p "spacing" = VUndefined)) as [Hu|Hset].
  - unfold spacing_at in Hsp. rewrite Hu in Hsp.
    by rewrite (field_eq _ _ _ Hsp), Hu.
  - unfold optional, is_spacing_prop.
    rewrite (spacing_is_BreakpointMap h ext p o Hs Hsp Hset).
    by rewrite !orb_true_r.
Qed.

(** X4: [normalizeProps] maps a FlexProps record to a FlexProps record, one
    with nothing left to wrap. *)
Theorem normalizeProps_preserves_FlexProps (h : heap) (props : loc) :
  is_FlexProps h props = true →
  ∃ (l' : loc) (h' : heap) (o : object),
    normalizeProps props h = Ok (l', h') ∧ h' !! l' = Some o
    ∧ is_FlexProps h' l' = true
    ∧ already_normalized h' o = true.
Proof.
  intros Hv.
  destruct (h !! props) as [p|] eqn:H;
    [|unfold is_FlexProps in Hv; by rewrite H in Hv].
  destruct (normalizeProps_spec h props p H (is_FlexProps_classifiable _ _ _ H Hv))
    as (o & ext & Hrun & Hout & Hin & Hsp).
  exists (length h), (h ++ o :: ext), o.
  split; [done|]. split; [apply frame_lookup_record|].
  split; [by apply (normalized_is_FlexProps h ext props p o)
         | by apply (normalized_record_normalized h ext p o)].
Qed.

Lemma normalizeProps_preserves_FlexProps_witness :
  is_FlexProps heap_scalars 0%nat = true
  ∧ ∃ (l' : loc) (h' : heap) (o : object),
      normalizeProps 0%nat heap_scalars = Ok (l', h') ∧ h' !! l' = Some o
      ∧ is_FlexProps h' l' = true
      ∧ already_normalized h' o = true.
Proof.
  split; [vm_compute; reflexivity|].
  apply normalizeProps_preserves_FlexProps. vm_compute. reflexivity.
Defined.

(** ** Beyond the claims: [styleFlex] *)

Lemma strict_eq_true (a b : value) : strict_eq a b = true → a = b.
Proof. unfold strict_eq. by intros ?%bool_decide_eq_true. Qed.

Lemma at_breakpoint_silent (breakpoint : Breakpoint) (h : heap) (v : value)
    (scalar : string) :
  scalar ≠ "undefined" →
  silent_at breakpoint h v = true →
  at_breakpoint breakpoint v scalar h = Ok VUndefined.
Proof.
  intros Hs. unfold silent_at, at_breakpoint.
  destruct v as [| |b|n|s|l]; simpl; try done.
  - by destruct (bool_decide (breakpoint = sm) && _).
  - intros ->%negb_true_iff. done.
  - intros ->%negb_true_iff. done.
  - intros ->%negb_true_iff. done.
  - unfold deref. destruct (h !! l) as [o|]; [|done]. simpl.
    by intros ->%strict_eq_true.
Qed.

Lemma spacing_at_breakpoint_silent (breakpoint : Breakpoint) (h : heap) (v : value) :
  silent_at breakpoint h v = true →
  spacing_at_breakpoint breakpoint v h = Ok VUndefined.
Proof.
  unfold silent_at, spacing_at_breakpoint.
  destruct v as [| |b|n|s|l]; simpl; try done.
  destruct (h !! l) as [o|] eqn:Hl; [|done].
  rewrite (has_breakpoint_key_object _ _ _ Hl). simpl.
  destruct (has_bp_key o); [|done].
  unfold deref. rewrite Hl. simpl. by intros ->%strict_eq_true.
Qed.

Lemma styleFlex_silent (breakpoint : Breakpoint) (h : heap) (props : loc) :
  silent_record breakpoint h props = true →
  styleFlex breakpoint props h
  = Ok (if bool_decide (breakpoint = sm) then "display: flex;" else "").
Proof.
  unfold silent_record. destruct (h !! props) as [p|] eqn:H; [|done].
  simpl. rewrite !andb_true_iff. intros (Hd & Hg & Hgr & Ha & Hj & Hs & _).
  unfold styleFlex, styleFlex_styles, deref. rewrite H. cbn [mbind result_bind].
  rewrite !at_breakpoint_silent by done.
  rewrite (spacing_at_breakpoint_silent _ _ _ Hs). cbn [mbind result_bind].
  unfold base_styles. by destruct (bool_decide (breakpoint = sm)).
Qed.

(** X5: when none of the six properties yields a value at the tier (each is
    absent, a scalar at [md] or [lg], or an object without an entry for the
    tier), the output is empty at [md] and [lg] and exactly [display: flex;]
    at [sm]: nothing is inherited from a lower tier. *)
Theorem silent_record_styles (breakpoint : Breakpoint) (h : heap) (props : loc) :
  silent_record breakpoint h props = true →
  styleFlex breakpoint props h
  = Ok (if bool_decide (breakpoint = sm) then "display: flex;" else "").
Proof. apply styleFlex_silent. Qed.

Lemma silent_record_styles_witness :
  silent_record lg heap_scenario_md 0%nat = true
  ∧ styleFlex lg 0%nat heap_scenario_md = Ok "".
Proof.
  split; [vm_compute; reflexivity|].
  apply (silent_record_styles lg heap_scenario_md 0%nat). vm_compute. reflexivity.
Defined.

Lemma at_breakpoint_null (breakpoint : Breakpoint) (scalar : string) (h : heap) :
  at_breakpoint breakpoint VNull scalar h = Throw TypeError.
Proof. done. Qed.

Lemma styleFlex_null (breakpoint : Breakpoint) (h : heap) (props : loc) (p : object) :
  h !! props = Some p → has_null_prop p = true →
  ∃ e, styleFlex breakpoint props h = Throw e.
Proof.
  intros H. unfold has_null_prop. simpl. rewrite !orb_true_iff.
  unfold styleFlex, styleFlex_styles, deref. rewrite H. cbn [mbind result_bind].
  intros Hnull.
  destruct Hnull as [Hn|[Hn|[Hn|[Hn|[Hn|[Hn|Hn]]]]]]; try discriminate Hn;
    apply strict_eq_true in Hn; rewrite Hn;
    repeat match goal with
      | |- context [at_breakpoint ?b VNull ?s ?h'] =>
          rewrite (at_breakpoint_null b s h')
      | |- context [at_breakpoint ?b (field ?o ?k) ?s ?h'] =>
          destruct (at_breakpoint b (field o k) s h'); cbn [mbind result_bind]
      end;
    eauto.
Qed.

(** X6: a [null] in any of [direction], [gap], [grow], [alignItems],
    [justifyContent], [spacing] makes [styleFlex] throw, at every tier:
    [typeof null] is ["object"], so the code indexes it or applies [in] to
    it. *)
Theorem styleFlex_throws_on_null (breakpoint : Breakpoint) (h : heap) (props : loc)
    (p : object) :
  h !! props = Some p → has_null_prop p = true →
  ∃ e, styleFlex breakpoint props h = Throw e.
Proof. apply styleFlex_null. Qed.

Lemma styleFlex_throws_on_null_witness :
  heap_null_direction !! 0%nat = Some {[ "direction" := VNull; "gap" := VNumber 2 ]}
  ∧ has_null_prop {[ "direction" := VNull; "gap" := VNumber 2 ]} = true
  ∧ ∃ e, styleFlex sm 0%nat heap_null_direction = Throw e.
Proof.
  split; [reflexivity|]. split; [vm_compute; reflexivity|].
  apply (styleFlex_throws_on_null sm heap_null_direction 0%nat _ eq_refl).
  vm_compute. reflexivity.
Defined.

(** ** Beyond the claims: the two stages together *)

Lemma silent_at_mono (breakpoint : Breakpoint) (h h' : heap) (v : value) :
  h `prefix_of` h' → silent_at breakpoint h v = true → silent_at breakpoint h' v = true.
Proof.
  intros Hpre. unfold silent_at. destruct v as [| | | | |l]; try done.
  destruct (h !! l) as [o|] eqn:Hl; [|done].
  by rewrite (prefix_lookup_Some _ _ _ _ Hl Hpre).
Qed.

Lemma bp_key_not_sm (breakpoint : Breakpoint) : breakpoint ≠ sm → bp_key breakpoint ≠ "sm".
Proof. by destruct breakpoint. Qed.

Lemma silent_at_sm_wrapper (breakpoint : Breakpoint) (hf : heap) (lw : loc) (v : value) :
  breakpoint ≠ sm → hf !! lw = Some {[ "sm" := v ]} →
  silent_at breakpoint hf (VObject lw) = true.
Proof.
  intros Hbp Hlw. unfold silent_at. rewrite Hlw. unfold field.
  rewrite lookup_singleton_ne; [done|]. intros E. by apply (bp_key_not_sm _ Hbp).
Qed.

Lemma normalized_silent (breakpoint : Breakpoint) (h ext : heap) (p o : object) :
  breakpoint ≠ sm →
  (∀ k, k ∉ BREAKPOINT_PROPS → k ≠ "spacing" → o !! k = p !! k) →
  (∀ k, k ∈ BREAKPOINT_PROPS → wrapped_at (length h) (h ++ o :: ext) p o k) →
  spacing_at (length h) (h ++ o :: ext) p o →
  ∀ k, silent_at breakpoint h (field p k) = true →
       silent_at breakpoint (h ++ o :: ext) (field o k) = true.
Proof.
  intros Hbp Hout Hin Hsp k Hk.
  assert (h `prefix_of` h ++ o :: ext) as Hpre by (by apply prefix_app_r).
  destruct (decide (k ∈ BREAKPOINT_PROPS)) as [Hbk|Hbk].
  { specialize (Hin k Hbk). unfold wrapped_at in Hin.
    destruct (is_scalar (field p k)).
    - destruct Hin as (lw & Ho & _ & Hlw). unfold field at 1. rewrite Ho. simpl.
      by apply (silent_at_sm_wrapper _ _ _ (field p k)).
    - rewrite (field_eq _ _ _ Hin). by apply (silent_at_mono _ h). }
  destruct (decide (k = "spacing")) as [->|Hne].
  2: { rewrite (field_eq _ _ _ (Hout k Hbk Hne)). by apply (silent_at_mono _ h). }
  unfold spacing_at in Hsp.
  destruct (field p "spacing") as [| | |x| |ls] eqn:Hp; try done.
  - by rewrite (field_eq _ _ _ Hsp), Hp.
  - destruct Hsp as (outer & inner & Ho & _ & _ & Houter & _).
    unfold field. rewrite Ho. simpl.
    by apply (silent_at_sm_wrapper _ _ _ (VObject inner)).
  - destruct Hsp as (def & Hdef & Hif). destruct (has_bp_key def).
    + rewrite (field_eq _ _ _ Hif), Hp. by apply (silent_at_mono _ h).
    + destruct Hif as (outer & Ho & _ & Houter).
      unfold field. rewrite Ho. simpl.
      by apply (silent_at_sm_wrapper _ _ _ (VObject ls)).
Qed.

(** X7: normalisation never makes a record speak at a higher tier: if no
    property of the raw record yields a value at [md] (or [lg]), the output
    of the resolver on the normalised record is empty at that tier; every
    wrapper the normaliser adds has the key [sm] only. *)
Theorem normalize_keeps_tier_silent (breakpoint : Breakpoint) (h : heap) (props : loc)
    (p : object) :
  h !! props = Some p → breakpoint ≠ sm → normalizable h p = true →
  silent_record breakpoint h props = true →
  resolve_normalized breakpoint props h = Ok "".
Proof.
  intros H Hbp Hn Hs.
  destruct (normalizeProps_spec h props p H (normalizable_classifiable _ _ Hn))
    as (o & ext & Hrun & Hout & Hin & Hsp).
  unfold resolve_normalized. rewrite Hrun.
  rewrite styleFlex_silent.
  - by rewrite bool_decide_eq_false_2.
  - unfold silent_record in *. rewrite frame_lookup_record. rewrite H in Hs.
    rewrite forallb_forall in Hs. apply forallb_forall. intros k Hk.
    apply (normalized_silent breakpoint h ext p o); auto.
Qed.

Lemma normalize_keeps_tier_silent_witness :
  heap_scalars !! 0%nat
  = Some {[ "gap" := VNumber 2; "direction" := VString "row"; "grow" := VNumber 0;
            "spacing" := VNumber 3; "alignItems" := VString "center" ]}
  ∧ md ≠ sm
  ∧ normalizable heap_scalars
      {[ "gap" := VNumber 2; "direction" := VString "row"; "grow" := VNumber 0;
         "spacing" := VNumber 3; "alignItems" := VString "center" ]} = true
  ∧ silent_record md heap_scalars 0%nat = true
  ∧ resolve_normalized md 0%nat heap_scalars = Ok "".
Proof.
  split; [reflexivity|]. split; [discriminate|].
  split; [vm_compute; reflexivity|]. split; [vm_compute; reflexivity|].
  apply (normalize_keeps_tier_silent md heap_scalars 0%nat _ eq_refl);
    [discriminate | vm_compute; reflexivity | vm_compute; reflexivity].
Defined.

Lemma at_breakpoint_extend (breakpoint : Breakpoint) (v : value) (scalar : string)
    (h h' : heap) (r : value) :
  h `prefix_of` h' →
  at_breakpoint breakpoint v scalar h = Ok r →
  at_breakpoint breakpoint v scalar h' = Ok r.
Proof.
  intros Hpre. unfold at_breakpoint.
  destruct (typeof v =? "object")%string; [|done].
  destruct v as [| | | | |l]; simpl; try done.
  unfold deref. destruct (h !! l) as [o|] eqn:Hl; [|done].
  by rewrite (prefix_lookup_Some _ _ _ _ Hl Hpre).
Qed.

Lemma spacing_at_breakpoint_extend (breakpoint : Breakpoint) (v : value)
    (h h' : heap) (r : value) :
  h `prefix_of` h' →
  spacing_at_breakpoint breakpoint v h = Ok r →
  spacing_at_breakpoint breakpoint v h' = Ok r.
Proof.
  intros Hpre. unfold spacing_at_breakpoint.
  destruct v as [| | | | |l]; simpl; try done.
  destruct (h !! l) as [o|] eqn:Hl.
  - rewrite (has_breakpoint_key_object _ _ _ Hl).
    rewrite (has_breakpoint_key_object _ _ _ (prefix_lookup_Some _ _ _ _ Hl Hpre)).
    simpl. unfold deref. by rewrite Hl, (prefix_lookup_Some _ _ _ _ Hl Hpre).
  - unfold has_breakpoint_key, has_prop, deref. by rewrite Hl.
Qed.

Lemma scalar_of_type (T : value → bool) (h : heap) (v : value) :
  optional (responsive T h) v = true → is_scalar v = true → T v = true.
Proof.
  unfold optional, responsive, is_BreakpointMap. rewrite strict_eq_undefined.
  destruct v; simpl; try done; rewrite ?orb_false_r; done.
Qed.

(** For a property of type [T | BreakpointMap<T>], [T] scalars of the
    [typeof] the extraction tests, the value extracted from the normalised
    record is the one extracted from the raw record. *)
Lemma at_breakpoint_wrapped (T : value → bool) (scalar : string)
    (breakpoint : Breakpoint) (h ext : heap) (p o : object) (k : string) :
  (∀ v, T v = true → is_scalar v = true) →
  (∀ v, T v = true → typeof v = scalar) →
  optional (responsive T h) (field p k) = true →
  wrapped_at (length h) (h ++ o :: ext) p o k →
  at_breakpoint breakpoint (field o k) scalar (h ++ o :: ext)
  = at_breakpoint breakpoint (field p k) scalar h.
Proof.
  intros HT Htype Hty Hw.
  destruct (at_breakpoint_typed T scalar h breakpoint _ HT Hty) as (r & E & _).
  rewrite E. unfold wrapped_at in Hw. destruct (is_scalar (field p k)) eqn:Hs.
  - destruct Hw as (lw & Ho & _ & Hlw).
    pose proof (Htype _ (scalar_of_type T h _ Hty Hs)) as Htv.
    unfold field at 1. rewrite Ho. simpl.
    unfold at_breakpoint in E |- *. simpl. unfold deref. rewrite Hlw. simpl.
    unfold is_scalar in Hs. apply andb_true_iff in Hs as [_ Hobj].
    apply negb_true_iff in Hobj. rewrite Hobj, Htv, String.eqb_refl in E.
    rewrite <- E. unfold field at 1.
    destruct breakpoint; simpl;
      rewrite ?lookup_singleton_eq, ?lookup_singleton_ne by done; done.
  - rewrite (field_eq _ _ _ Hw).
    apply (at_breakpoint_extend _ _ _ h); [by apply prefix_app_r | done].
Qed.

Lemma GapSize_typeof (v : value) : is_GapSize v = true → typeof v = "number".
Proof. by destruct v. Qed.

Lemma keyword_typeof (v : value) : is_keyword v = true → typeof v = "string".
Proof. by destruct v. Qed.

Lemma grow_typeof (v : value) : is_grow v = true → typeof v = "number".
Proof. by destruct v. Qed.

Lemma styleFlex_normalized_raw (breakpoint : Breakpoint) (h : heap) (props : loc)
    (p : object) :
  h !! props = Some p → is_FlexProps h props = true →
  spacing_per_breakpoint h p = true →
  resolve_normalized breakpoint props h = styleFlex breakpoint props h.
Proof.
  intros H Hv Hpb.
  destruct (normalizeProps_spec h props p H (is_FlexProps_classifiable _ _ _ H Hv))
    as (o & ext & Hrun & Hout & Hin & Hsp).
  destruct (is_FlexProps_fields _ _ _ H Hv) as (Hg & Hd & Hgr & Hs & Ha & Hj & Ht).
  assert (h `prefix_of` h ++ o :: ext) as Hpre by (by apply prefix_app_r).
  assert (∀ k, k ∉ BREAKPOINT_PROPS → k ≠ "spacing" → field o k = field p k) as Hsame
    by (intros; by apply field_eq, Hout).
  assert (field o "spacing" = field p "spacing") as Hspacing.
  { unfold spacing_at in Hsp. unfold spacing_per_breakpoint in Hpb.
    destruct (field p "spacing") as [| | | | |ls] eqn:Hp; try done.
    - by rewrite (field_eq _ _ _ Hsp), Hp.
    - destruct Hsp as (def & Hdef & Hif).
      destruct (h !! ls) as [def'|] eqn:Hls; [|done].
      rewrite (frame_lookup_old _ _ _ _ _ Hls) in Hdef. injection Hdef as <-.
      rewrite Hpb in Hif. by rewrite (field_eq _ _ _ Hif), Hp. }
  destruct (at_breakpoint_scalar _ "string" h breakpoint _ keyword_is_scalar Ha)
    as (alignItems & Ea & _).
  destruct (at_breakpoint_scalar _ "string" h breakpoint _ keyword_is_scalar Hj)
    as (justifyContent & Ej & _).
  destruct (spacing_at_breakpoint_typed h breakpoint _ Hs) as (spacing & Es & Hsd).
  unfold resolve_normalized. rewrite Hrun.
  unfold styleFlex, styleFlex_styles, deref. rewrite frame_lookup_record, H.
  cbn [mbind result_bind].
  rewrite (at_breakpoint_wrapped is_keyword "string" breakpoint h ext p o "direction"
             keyword_is_scalar keyword_typeof Hd)
    by (apply Hin, in_BREAKPOINT_PROPS; tauto).
  rewrite (at_breakpoint_wrapped is_GapSize "number" breakpoint h ext p o "gap"
             GapSize_is_scalar GapSize_typeof Hg)
    by (apply Hin, in_BREAKPOINT_PROPS; tauto).
  rewrite (at_breakpoint_wrapped is_grow "number" breakpoint h ext p o "grow"
             grow_is_scalar grow_typeof Hgr)
    by (apply Hin, in_BREAKPOINT_PROPS; tauto).
  rewrite (Hsame "alignItems"), (Hsame "justifyContent"), (Hsame "type"), Hspacing;
    try discriminate;
    try (rewrite in_BREAKPOINT_PROPS; intros [?|[?|?]]; discriminate).
  rewrite (at_breakpoint_extend _ _ _ _ _ _ Hpre Ea), Ea.
  rewrite (at_breakpoint_extend _ _ _ _ _ _ Hpre Ej), Ej.
  rewrite (spacing_at_breakpoint_extend _ _ _ _ _ Hpre Es), Es.
  destruct (at_breakpoint breakpoint (field p "direction") "string" h); [|done].
  destruct (at_breakpoint breakpoint (field p "gap") "number" h); [|done].
  destruct (at_breakpoint breakpoint (field p "grow") "number" h); [|done].
  cbn [mbind result_bind].
  destruct Hsd as [->|(def & od & -> & Hdef & Hsdef)]; [done|].
  change (truthy (VObject def)) with true. cbv iota.
  destruct (spacing_type_or_padding _ Ht) as [->| ->];
    rewrite (styleSpacing_declarations _ _ _ _ Hdef Hsdef);
    rewrite (styleSpacing_declarations _ _ _ _ (frame_lookup_old _ _ _ _ _ Hdef)
               (is_SpacingDefinition_mono _ _ _ Hpre Hsdef));
    done.
Qed.

(** X8: on a FlexProps record whose [spacing] is absent or already has a
    breakpoint key, normalising first changes nothing: at every tier the
    resolver returns on the normalised record what it returns on the raw
    one.  [styleFlex] itself treats a scalar [gap], [direction] or [grow]
    as its [sm] value. *)
Theorem normalization_transparent (breakpoint : Breakpoint) (h : heap) (props : loc)
    (p : object) :
  h !! props = Some p → is_FlexProps h props = true →
  spacing_per_breakpoint h p = true →
  resolve_normalized breakpoint props h = styleFlex breakpoint props h.
Proof. apply styleFlex_normalized_raw. Qed.

Lemma normalization_transparent_witness :
  heap_grow !! 0%nat = Some {[ "grow" := VObject 1%nat; "direction" := VString "row" ]}
  ∧ is_FlexProps heap_grow 0%nat = true
  ∧ spacing_per_breakpoint heap_grow
      {[ "grow" := VObject 1%nat; "direction" := VString "row" ]} = true
  ∧ resolve_normalized sm 0%nat heap_grow = styleFlex sm 0%nat heap_grow.
Proof.
  split; [reflexivity|]. split; [vm_compute; reflexivity|].
  split; [vm_compute; reflexivity|].
  apply (normalization_transparent sm heap_grow 0%nat _ eq_refl);
    vm_compute; reflexivity.
Defined.

(** ** Beyond the claims: what the output is made of *)

(** The output on a FlexProps record, with the spacing block named. *)
Lemma styleFlex_emitted_spacing (h : heap) (props : loc) (p : object)
    (breakpoint : Breakpoint) (spacing : value) :
  h !! props = Some p → is_FlexProps h props = true →
  spacing_at_breakpoint breakpoint (field p "spacing") h = Ok spacing →
  ∃ (direction alignItems justifyContent grow gap : value) (spacingStyles : string),
    styleFlex breakpoint props h
    = Ok (join LF (emitted breakpoint direction alignItems justifyContent grow gap
                     spacingStyles))
    ∧ (direction = VUndefined ∨ is_keyword direction = true)
    ∧ (alignItems = VUndefined ∨ is_keyword alignItems = true)
    ∧ (justifyContent = VUndefined ∨ is_keyword justifyContent = true)
    ∧ (grow = VUndefined ∨ is_grow grow = true)
    ∧ (gap = VUndefined ∨ is_GapSize gap = true)
    ∧ (spacing = VUndefined → spacingStyles = "")
    ∧ (∀ (def : loc) (od : object),
         spacing = VObject def → h !! def = Some od →
         (js_or (field p "type") (VString "padding") = VString "padding"
          ∧ spacingStyles = spacingDeclarations "padding" od)
         ∨ (field p "type" = VString "margin"
            ∧ spacingStyles = spacingDeclarations "margin" od)).
Proof.
  intros H Hv Es.
  destruct (is_FlexProps_fields _ _ _ H Hv) as (Hg & Hd & Hgr & Hs & Ha & Hj & Ht).
  destruct (at_breakpoint_typed _ "string" h breakpoint _ keyword_is_scalar Hd)
    as (direction & Ed & Hdirection).
  destruct (at_breakpoint_typed _ "number" h breakpoint _ GapSize_is_scalar Hg)
    as (gap & Eg & Hgap).
  destruct (at_breakpoint_typed _ "number" h breakpoint _ grow_is_scalar Hgr)
    as (grow & Egr & Hgrow).
  destruct (at_breakpoint_scalar _ "string" h breakpoint _ keyword_is_scalar Ha)
    as (alignItems & Ea & HalignItems).
  destruct (at_breakpoint_scalar _ "string" h breakpoint _ keyword_is_scalar Hj)
    as (justifyContent & Ej & HjustifyContent).
  destruct (spacing_at_breakpoint_typed h breakpoint _ Hs) as (spacing' & Es' & Hspacing).
  rewrite Es in Es'. injection Es' as <-.
  unfold styleFlex, styleFlex_styles, deref. rewrite H. cbn [mbind result_bind].
  rewrite Ed, Eg, Egr, Ea, Ej, Es. cbn [mbind result_bind]. cbv zeta.
  destruct Hspacing as [->|(def & o & -> & Hdef & Hsd)].
  - exists direction, alignItems, justifyContent, grow, gap, "".
    change (truthy VUndefined) with false. cbv iota.
    rewrite base_styles_emitted. cbn [mbind result_bind mret result_ret].
    split_and!; try done.
  - change (truthy (VObject def)) with true. cbv iota.
    assert (field p "type" = VString "margin"
            ∨ js_or (field p "type") (VString "padding") = VString "padding") as Hkind.
    { revert Ht. unfold optional, is_spacing_type, strict_eq.
      rewrite !orb_true_iff, !bool_decide_eq_true.
      intros [->|[->| ->]]; vm_compute; auto. }
    destruct Hkind as [Hm|Hp].
    + rewrite Hm. change (js_or (VString "margin") (VString "padding"))
        with (VString "margin").
      rewrite (styleSpacing_declarations _ _ _ _ Hdef Hsd).
      cbn [mbind result_bind]. unfold mret, result_ret.
      rewrite pushed_spacing_emitted.
      exists direction, alignItems, justifyContent, grow, gap,
        (spacingDeclarations "margin" o).
      split_and!; try done.
      intros def' od [= <-] Hod. right. rewrite Hdef in Hod. by injection Hod as <-.
    + rewrite Hp. rewrite (styleSpacing_declarations _ _ _ _ Hdef Hsd).
      cbn [mbind result_bind]. unfold mret, result_ret.
      rewrite pushed_spacing_emitted.
      exists direction, alignItems, justifyContent, grow, gap,
        (spacingDeclarations "padding" o).
      split_and!; try done.
      intros def' od [= <-] Hod. left. rewrite Hdef in Hod. by injection Hod as <-.
Qed.

Lemma spacing_not_per_breakpoint_undefined (breakpoint : Breakpoint) (h : heap)
    (props : loc) (p : object) :
  h !! props = Some p → is_FlexProps h props = true →
  spacing_per_breakpoint h p = false →
  spacing_at_breakpoint breakpoint (field p "spacing") h = Ok VUndefined.
Proof.
  intros H Hv Hpb.
  pose proof (is_FlexProps_classifiable _ _ _ H Hv) as Hc.
  unfold spacing_classifiable in Hc. unfold spacing_per_breakpoint in Hpb.
  unfold spacing_at_breakpoint.
  destruct (field p "spacing") as [| | | | |ls]; try done.
  destruct Hc as [def Hdef]. rewrite Hdef in Hpb. simpl.
  rewrite (has_breakpoint_key_object _ _ _ Hdef). by rewrite Hpb.
Qed.

Lemma styleFlex_drops_raw_spacing (breakpoint : Breakpoint) (h : heap) (props : loc)
    (p : object) :
  h !! props = Some p → is_FlexProps h props = true →
  spacing_per_breakpoint h p = false →
  ∃ out, styleFlex breakpoint props h = Ok out
         ∧ ∀ key, key ∈ spacing_keys → ¬ contains (key +:+ ":") out.
Proof.
  intros H Hv Hpb.
  destruct (styleFlex_emitted_spacing h props p breakpoint VUndefined H Hv
              (spacing_not_per_breakpoint_undefined _ _ _ _ H Hv Hpb))
    as (d & a & j & g & gap & ss & E & Hd & Ha & Hj & Hg & Hgap & Hss & _).
  rewrite (Hss eq_refl) in E. eexists. split; [exact E|].
  intros key Hkey.
  assert (no_char (ascii_of_nat 10) (key +:+ ":" +:+ "") = true
          ∧ keys_differ key
              ["display"; "flex-direction"; "align-items"; "justify-content";
               "flex-grow"; "flex-basis"; "gap"] = true) as [Hline Hkeys].
  { unfold spacing_keys in Hkey. rewrite !elem_of_cons, elem_of_nil in Hkey.
    destruct Hkey as [->|[->|[->|[->|[->|[->|[->|[->|[]]]]]]]]]; by vm_compute. }
  assert (keys_differ key ["display"; "flex-direction"; "align-items"; "justify-content"]
          = true
          ∧ keys_differ key ["flex-grow"] = true
          ∧ keys_differ key ["flex-basis"] = true
          ∧ keys_differ key ["gap"] = true) as (K1 & K2 & K3 & K4).
  { unfold keys_differ in *. simpl in *. rewrite !andb_true_iff in Hkeys.
    rewrite !andb_true_iff. tauto. }
  apply (join_clean key "" Hline).
  pose proof (before_grow_clean key "" breakpoint d a j (or_introl K1) Hd Ha Hj)
    as Hbefore.
  rewrite !Forall_app in Hbefore.
  unfold emitted. rewrite !Forall_app.
  assert (Forall (clean key "")
            (if negb (strict_eq g VUndefined)
             then ["flex-grow: " +:+ to_string g +:+ ";"; "flex-basis: 0;"] else []))
    as Hgrow.
  { destruct (negb (strict_eq g VUndefined)) eqn:Hdef; [|constructor].
    destruct (grow_line_shape g (grow_defined g Hg Hdef)) as [Eline Hrest].
    repeat constructor.
    - apply (declaration_of_clean key "" ["flex-grow"]); [done|].
      exists "flex-grow", (" " +:+ to_string g +:+ ";"). split; [by left | done].
    - apply (declaration_of_clean key "" ["flex-basis"]); [done|].
      exists "flex-basis", " 0;". split; [by left | done]. }
  pose proof (gap_segment_clean key "" gap K4 Hgap) as Hgapseg.
  assert (Forall (clean key "") (if truthy (VString "") then [""] else [])) as Hnone
    by constructor.
  tauto.
Qed.

(** X9: [styleFlex] alone does not see a [spacing] given as a bare number or
    as a bare SpacingDefinition: on such a raw FlexProps record no
    [padding-*] or [margin-*] declaration appears in the output, at any
    tier.  Only [normalizeProps] makes it visible. *)
Theorem raw_spacing_is_dropped (breakpoint : Breakpoint) (h : heap) (props : loc)
    (p : object) :
  h !! props = Some p → is_FlexProps h props = true →
  spacing_per_breakpoint h p = false →
  ∃ out, styleFlex breakpoint props h = Ok out
         ∧ ∀ key, key ∈ spacing_keys → ¬ contains (key +:+ ":") out.
Proof. apply styleFlex_drops_raw_spacing. Qed.

Lemma raw_spacing_is_dropped_witness :
  heap_spacing_bare !! 0%nat = Some {[ "spacing" := VObject 1%nat ]}
  ∧ is_FlexProps heap_spacing_bare 0%nat = true
  ∧ spacing_per_breakpoint heap_spacing_bare {[ "spacing" := VObject 1%nat ]} = false
  ∧ ∃ out, styleFlex sm 0%nat heap_spacing_bare = Ok out
           ∧ ∀ key, key ∈ spacing_keys → ¬ contains (key +:+ ":") out.
Proof.
  split; [reflexivity|]. split; [vm_compute; reflexivity|].
  split; [vm_compute; reflexivity|].
  apply (raw_spacing_is_dropped sm heap_spacing_bare 0%nat _ eq_refl);
    vm_compute; reflexivity.
Defined.

(** ** Beyond the claims: gap tokens and the spacing sub-resolver *)






Lemma first_defined_none (a b c : option Z) :
  first_defined [a; b; c] = None → a = None ∧ b = None ∧ c = None.
Proof. by destruct a, b, c. Qed.

Lemma spacingDeclarations_empty (kind : string) (o : object) :
  obj_all (fun k x => is_side_key k && is_GapSize x) o = true →
  spacingDeclarations kind o = "" → o = ∅.
Proof.
  intros Hv E. apply map_empty. intros k.
  destruct (o !! k) as [v|] eqn:Hk; [|done]. exfalso.
  pose proof (obj_all_lookup _ _ _ _ Hv Hk) as Hkv.
  apply andb_true_iff in Hkv as [Hside Hgap].
  assert (∃ n, gap_field o k = Some n) as [n Hn].
  { unfold gap_field. rewrite Hk. destruct v; try done. eauto. }
  unfold spacingDeclarations, resolved_sides in E.
  destruct (first_defined [gap_field o "top"; gap_field o "vertical"; gap_field o "all"])
    as [t|] eqn:Et,
    (first_defined [gap_field o "right"; gap_field o "horizontal"; gap_field o "all"])
    as [r|] eqn:Er,
    (first_defined [gap_field o "bottom"; gap_field o "vertical"; gap_field o "all"])
    as [b|] eqn:Eb,
    (first_defined [gap_field o "left"; gap_field o "horizontal"; gap_field o "all"])
    as [l|] eqn:El;
    try (destruct kind; simpl in E; discriminate E).
  apply first_defined_none in Et as (Ht & Hve & Hall).
  apply first_defined_none in Er as (Hr & Hho & _).
  apply first_defined_none in Eb as (Hb & _ & _).
  apply first_defined_none in El as (Hl & _ & _).
  unfold is_side_key in Hside. rewrite !orb_true_iff, !String.eqb_eq in Hside.
  destruct Hside as [[[[[[->| ->]| ->]| ->]| ->]| ->]| ->]; congruence.
Qed.

(** X11: on a SpacingDefinition the sub-resolver returns the empty string
    exactly when the definition has no field at all, which is the case the
    [if (spacingStyles)] of line 217 keeps out of the output. *)
Theorem styleSpacing_empty_iff (h : heap) (kind : string) (def : loc) (o : object) :
  h !! def = Some o →
  is_SpacingDefinition h (VObject def) = true →
  styleSpacing (VString kind) (VObject def) h = Ok "" ↔ o = ∅.
Proof.
  intros H Hv. rewrite (styleSpacing_declarations _ _ _ _ H Hv). split.
  - intros [= E]. unfold is_SpacingDefinition in Hv. rewrite H in Hv.
    by apply (spacingDeclarations_empty kind).
  - by intros ->.
Qed.

Lemma styleSpacing_empty_iff_witness :
  heap_spacing_priority !! 0%nat
  = Some {[ "all" := VNumber 1; "horizontal" := VNumber 2; "top" := VNumber 3 ]}
  ∧ is_SpacingDefinition heap_spacing_priority (VObject 0%nat) = true
  ∧ (styleSpacing (VString "margin") (VObject 0%nat) heap_spacing_priority = Ok ""
     ↔ ({[ "all" := VNumber 1; "horizontal" := VNumber 2; "top" := VNumber 3 ]} : object)
       = ∅).
Proof.
  split; [reflexivity|]. split; [vm_compute; reflexivity|].
  apply (styleSpacing_empty_iff heap_spacing_priority "margin" 0%nat _ eq_refl).
  vm_compute. reflexivity.
Defined.

Lemma keyword_char_value (c : ascii) :
  is_keyword_char c = true → is_value_char c = true.
Proof. destruct c as [[] [] [] [] [] [] [] []]; vm_compute; congruence. Qed.

Lemma keyword_value (v : value) :
  is_keyword v = true → string_all is_value_char (to_string v) = true.
Proof.
  destruct v as [| | | |s|]; try done. simpl.
  apply string_all_impl, keyword_char_value.
Qed.

Lemma string_of_uint_value (d : Decimal.uint) :
  string_all is_value_char (NilEmpty.string_of_uint d) = true.
Proof. induction d; simpl; done. Qed.

Lemma number_to_string_value (n : Z) :
  string_all is_value_char (number_to_string n) = true.
Proof.
  unfold number_to_string, NilZero.string_of_int.
  assert (∀ d, string_all is_value_char (NilZero.string_of_uint d) = true) as Hd.
  { intros d. destruct d; try apply string_of_uint_value. done. }
  destruct (Z.to_int n) as [d|d]; [apply Hd|]. simpl. apply Hd.
Qed.

Lemma gap_token_value (n : Z) : string_all is_value_char (gap_token n) = true.
Proof.
  unfold gap_token. destruct (n =? 0); [done|].
  rewrite !string_all_append. by rewrite number_to_string_value.
Qed.

Lemma declaration_intro (name value : string) :
  name ∈ property_names → string_all is_value_char value = true →
  is_declaration (name +:+ ": " +:+ value +:+ ";").
Proof. intros Hn Hv. by exists name, value. Qed.

Lemma property_name_in (name : string) :
  bool_decide (name ∈ property_names) = true → name ∈ property_names.
Proof. apply bool_decide_eq_true. Qed.

Lemma keyword_segment_declarations (name : string) (v : value) :
  name ∈ property_names →
  v = VUndefined ∨ is_keyword v = true →
  Forall is_declaration
    (if truthy v then [name +:+ ": " +:+ to_string v +:+ ";"] else []).
Proof.
  intros Hn Hv. destruct (truthy v) eqn:Ht; [|constructor].
  destruct Hv as [->|Hv]; [done|]. repeat constructor.
  by apply declaration_intro, keyword_value.
Qed.

Lemma side_declaration_is_declaration (kind side : string) (x : option Z) (line : string) :
  kind = "padding" ∨ kind = "margin" →
  side ∈ ["top"; "right"; "bottom"; "left"] →
  side_declaration kind (side, x) = Some line →
  is_declaration line.
Proof.
  intros Hk Hs. unfold side_declaration. destruct x as [n|]; [|done]. simpl.
  intros [= <-]. exists (kind +:+ "-" +:+ side), (gap_token n).
  split; [|split].
  - rewrite !elem_of_cons, elem_of_nil in Hs.
    destruct Hk as [->| ->], Hs as [->|[->|[->|[->|[]]]]];
      apply property_name_in; by vm_compute.
  - by rewrite !append_assoc.
  - apply gap_token_value.
Qed.

Lemma spacingDeclarations_lines (kind : string) (o : object) :
  kind = "padding" ∨ kind = "margin" →
  Forall is_declaration (omap (side_declaration kind) (resolved_sides o)).
Proof.
  intros Hk. apply Forall_forall. intros line Hl.
  apply list_elem_of_omap in Hl as ([side x] & Hin & Hline).
  apply (side_declaration_is_declaration kind side x); [done| |done].
  unfold resolved_sides in Hin. rewrite !elem_of_cons, elem_of_nil in Hin.
  rewrite !elem_of_cons.
  destruct Hin as [[= -> _]|[[= -> _]|[[= -> _]|[[= -> _]|[]]]]]; tauto.
Qed.

(** Pushing a joined block is pushing its lines. *)
Lemma join_flatten (xs parts : list string) :
  parts ≠ [] → join LF (xs ++ [join LF parts]) = join LF (xs ++ parts).
Proof.
  intros Hne. induction xs as [|x xs IH]; [done|].
  simpl app. rewrite !join_cons.
  destruct (xs ++ [join LF parts]) eqn:E1; [by destruct xs|].
  destruct (xs ++ parts) eqn:E2; [by destruct xs, parts|].
  unfold continued. by rewrite IH.
Qed.

Lemma styleFlex_lines (breakpoint : Breakpoint) (h : heap) (props : loc) :
  is_FlexProps h props = true →
  ∃ lines : list string,
    styleFlex breakpoint props h = Ok (join LF lines) ∧ Forall is_declaration lines.
Proof.
  intros Hv.
  destruct (h !! props) as [p|] eqn:H;
    [|unfold is_FlexProps in Hv; by rewrite H in Hv].
  destruct (styleFlex_emitted h props p breakpoint H Hv)
    as (d & a & j & g & gap & ss & E & _ & Hd & Ha & Hj & Hg & Hgap & Hss).
  set (base := (if bool_decide (breakpoint = sm) then ["display: flex;"] else [])
               ++ (if truthy d then ["flex-direction" +:+ ": " +:+ to_string d +:+ ";"]
                   else [])
               ++ (if truthy a then ["align-items" +:+ ": " +:+ to_string a +:+ ";"]
                   else [])
               ++ (if truthy j then ["justify-content" +:+ ": " +:+ to_string j +:+ ";"]
                   else [])
               ++ (if negb (strict_eq g VUndefined)
                   then ["flex-grow: " +:+ to_string g +:+ ";"; "flex-basis: 0;"] else [])
               ++ (if negb (strict_eq gap VUndefined)
                   then ["gap: var(--gap-size-" +:+ to_string gap +:+ ");"] else [])).
  assert (emitted breakpoint d a j g gap ss
          = base ++ (if truthy (VString ss) then [ss] else [])) as Eem
    by (unfold emitted, base; by rewrite <- !app_assoc).
  assert (Forall is_declaration base) as Hbase.
  { unfold base. rewrite !Forall_app. split_and!.
    - destruct (bool_decide (breakpoint = sm)); repeat constructor.
      apply (declaration_intro "display" "flex"); [|done].
      apply property_name_in. by vm_compute.
    - apply keyword_segment_declarations; [|done].
      apply property_name_in. by vm_compute.
    - apply keyword_segment_declarations; [|done].
      apply property_name_in. by vm_compute.
    - apply keyword_segment_declarations; [|done].
      apply property_name_in. by vm_compute.
    - destruct (negb (strict_eq g VUndefined)) eqn:Hdef; [|constructor].
      pose proof (grow_defined g Hg Hdef) as Hgrow.
      destruct g as [| | |n| |]; try done. repeat constructor.
      + apply (declaration_intro "flex-grow" (number_to_string n));
          [|apply number_to_string_value].
        apply property_name_in. by vm_compute.
      + apply (declaration_intro "flex-basis" "0"); [|done].
        apply property_name_in. by vm_compute.
    - destruct Hgap as [->|Hgap]; [constructor|].
      destruct gap as [| | |n| |]; try done. simpl. repeat constructor.
      exists "gap", ("var(--gap-size-" +:+ number_to_string n +:+ ")").
      split; [apply property_name_in; by vm_compute|]. split.
      + simpl. by rewrite !append_assoc.
      + rewrite !string_all_append. by rewrite number_to_string_value. }
  clearbody base. rewrite Eem in E.
  destruct (truthy (VString ss)) eqn:Hss'.
  - destruct Hss as [->|(kind & o & Hk & _ & ->)]; [done|].
    unfold spacingDeclarations in E |- *.
    exists (base ++ omap (side_declaration kind) (resolved_sides o)). split.
    + rewrite E. f_equal. apply join_flatten. intros Hnil.
      unfold spacingDeclarations in Hss'. by rewrite Hnil in Hss'.
    + apply Forall_app. split; [done|]. by apply spacingDeclarations_lines.
  - exists base. rewrite app_nil_r in E. done.
Qed.

(** X12: on every FlexProps record, at every tier, the output is a list of
    declarations joined by line feeds, each of the form [name: value;] with
    [name] one of the fifteen CSS properties the two functions write and
    [value] free of colons, semicolons and line feeds. *)
Theorem output_is_declarations (breakpoint : Breakpoint) (h : heap) (props : loc) :
  is_FlexProps h props = true →
  ∃ lines : list string,
    styleFlex breakpoint props h = Ok (join LF lines) ∧ Forall is_declaration lines.
Proof. apply styleFlex_lines. Qed.

Lemma output_is_declarations_witness :
  is_FlexProps heap_scenario_md 0%nat = true
  ∧ ∃ lines : list string,
      styleFlex md 0%nat heap_scenario_md = Ok (join LF lines)
      ∧ Forall is_declaration lines.
Proof.
  split; [vm_compute; reflexivity|].
  apply output_is_declarations. vm_compute. reflexivity.
Defined.

Lemma gap_field_all (n : Z) (k : string) :
  gap_field {[ "all" := VNumber n ]} k = if String.eqb k "all" then Some n else None.
Proof.
  unfold gap_field. destruct (String.eqb_spec k "all") as [->|Hne].
  - by rewrite lookup_singleton_eq.
  - by rewrite lookup_singleton_ne.
Qed.

Lemma scalar_spacing_block (kind : string) (n : Z) :
  spacingDeclarations kind {[ "all" := VNumber n ]}
  = kind +:+ "-top: " +:+ gap_token n +:+ ";" +:+ LF
    +:+ kind +:+ "-right: " +:+ gap_token n +:+ ";" +:+ LF
    +:+ kind +:+ "-bottom: " +:+ gap_token n +:+ ";" +:+ LF
    +:+ kind +:+ "-left: " +:+ gap_token n +:+ ";".
Proof.
  unfold spacingDeclarations, resolved_sides.
  rewrite !gap_field_all. repeat (progress (simpl; rewrite ?append_assoc)). done.
Qed.

Lemma styleFlex_scalar_spacing (h : heap) (props : loc) (p : object) (n : Z) :
  h !! props = Some p → is_FlexProps h props = true →
  field p "spacing" = VNumber n →
  let kind := if bool_decide (field p "type" = VString "margin")
              then "margin" else "padding" in
  ∃ out pre : string,
    resolve_normalized sm props h = Ok out
    ∧ out = pre +:+ (kind +:+ "-top: " +:+ gap_token n +:+ ";" +:+ LF
                     +:+ kind +:+ "-right: " +:+ gap_token n +:+ ";" +:+ LF
                     +:+ kind +:+ "-bottom: " +:+ gap_token n +:+ ";" +:+ LF
                     +:+ kind +:+ "-left: " +:+ gap_token n +:+ ";").
Proof.
  intros H Hv Hn kind.
  destruct (normalizeProps_spec h props p H (is_FlexProps_classifiable _ _ _ H Hv))
    as (o & ext & Hrun & Hout & Hin & Hsp).
  pose proof (normalized_is_FlexProps h ext props p o H Hv Hout Hin Hsp) as Hv'.
  assert (field o "type" = field p "type") as Htype.
  { apply field_eq, Hout; [|discriminate].
    rewrite in_BREAKPOINT_PROPS. intros [?|[?|?]]; discriminate. }
  unfold spacing_at in Hsp. rewrite Hn in Hsp.
  destruct Hsp as (outer & inner & Ho & _ & _ & Houter & Hinner).
  assert (spacing_at_breakpoint sm (field o "spacing") (h ++ o :: ext)
          = Ok (VObject inner)) as Es.
  { unfold field. rewrite Ho. simpl. unfold spacing_at_breakpoint. simpl.
    rewrite (has_breakpoint_key_object _ _ _ Houter), has_bp_key_sm. simpl.
    unfold deref. rewrite Houter. simpl. unfold field.
    by rewrite lookup_singleton_eq. }
  destruct (styleFlex_emitted_spacing _ _ o sm _ (frame_lookup_record h ext o) Hv' Es)
    as (d & a & j & g & gap & ss & E & _ & _ & _ & _ & _ & _ & Hss).
  specialize (Hss inner _ eq_refl Hinner). rewrite Htype in Hss.
  assert (ss = spacingDeclarations kind {[ "all" := VNumber n ]}) as ->.
  { unfold kind. destruct Hss as [[Hp ->]|[Hm ->]].
    - rewrite bool_decide_eq_false_2; [done|]. intros Hm. by rewrite Hm in Hp.
    - by rewrite bool_decide_eq_true_2. }
  unfold resolve_normalized. rewrite Hrun, E.
  rewrite scalar_spacing_block.
  set (block := kind +:+ "-top: " +:+ _).
  assert (truthy (VString block) = true) as Ht
    by (unfold block, kind; by destruct (bool_decide _)).
  unfold emitted. rewrite Ht. rewrite !app_assoc.
  destruct (join_middle
              (((((if bool_decide (sm = sm) then ["display: flex;"] else [])
                  ++ (if truthy d
                      then ["flex-direction: " +:+ to_string d +:+ ";"] else []))
                 ++ (if truthy a then ["align-items: " +:+ to_string a +:+ ";"] else []))
                ++ (if truthy j
                    then ["justify-content: " +:+ to_string j +:+ ";"] else []))
               ++ (if negb (strict_eq g VUndefined)
                   then ["flex-grow: " +:+ to_string g +:+ ";"; "flex-basis: 0;"]
                   else [])
               ++ (if negb (strict_eq gap VUndefined)
                   then ["gap: var(--gap-size-" +:+ to_string gap +:+ ");"] else []))
              [] block) as [pre Ej].
  exists (join LF (emitted sm d a j g gap block)), pre.
  split.
  - unfold emitted. by rewrite Ht, !app_assoc.
  - unfold emitted. rewrite Ht, !app_assoc.
    rewrite <- (app_assoc _ (if negb (strict_eq g VUndefined) then _ else _)).
    rewrite Ej. simpl. by rewrite append_nil_r.
Qed.

(** X13: a bare number [n] as [spacing] on a FlexProps record comes out of
    the two stages, at [sm], as the last four declarations of the output:
    top, right, bottom, left, each with the token of [n]; they are
    [margin-*] when [type] is ["margin"] and [padding-*] otherwise. *)
Theorem scalar_spacing_at_sm (h : heap) (props : loc) (p : object) (n : Z) :
  h !! props = Some p → is_FlexProps h props = true →
  field p "spacing" = VNumber n →
  let kind := if bool_decide (field p "type" = VString "margin")
              then "margin" else "padding" in
  ∃ out pre : string,
    resolve_normalized sm props h = Ok out
    ∧ out = pre +:+ (kind +:+ "-top: " +:+ gap_token n +:+ ";" +:+ LF
                     +:+ kind +:+ "-right: " +:+ gap_token n +:+ ";" +:+ LF
                     +:+ kind +:+ "-bottom: " +:+ gap_token n +:+ ";" +:+ LF
                     +:+ kind +:+ "-left: " +:+ gap_token n +:+ ";").
Proof. apply styleFlex_scalar_spacing. Qed.

Lemma scalar_spacing_at_sm_witness :
  heap_scalars !! 0%nat
  = Some {[ "gap" := VNumber 2; "direction" := VString "row"; "grow" := VNumber 0;
            "spacing" := VNumber 3; "alignItems" := VString "center" ]}
  ∧ is_FlexProps heap_scalars 0%nat = true
  ∧ field {[ "gap" := VNumber 2; "direction" := VString "row"; "grow" := VNumber 0;
             "spacing" := VNumber 3; "alignItems" := VString "center" ]} "spacing"
    = VNumber 3
  ∧ ∃ out pre : string,
      resolve_normalized sm 0%nat heap_scalars = Ok out
      ∧ out = pre +:+ ("padding-top: var(--gap-size-3);" +:+ LF
                       +:+ "padding-right: var(--gap-size-3);" +:+ LF
                       +:+ "padding-bottom: var(--gap-size-3);" +:+ LF
                       +:+ "padding-left: var(--gap-size-3);").
Proof.
  split; [reflexivity|]. split; [vm_compute; reflexivity|].
  split; [vm_compute; reflexivity|].
  exact (scalar_spacing_at_sm heap_scalars 0%nat _ 3 eq_refl eq_refl eq_refl).
Defined.
